(** * The AOK remote-control protocol codec (esphome remote_base)

    A shallow embedding of [aok_protocol.h] / [aok_protocol.cpp]: the packet
    codec ([AOKData::checksum], [AOKProtocol::packet_bits]), the transmit
    encoder ([encode_packet], [encode]) and the receive decoder
    ([decode_packet], [decode]), followed by the properties of the codec.

    Fixed-width C++ integers are integers of [Z] with the wrap-around of each
    conversion written out; the 64-bit [std::bitset] is a [Z] read and
    written with [Z.testbit], [Z.setbit] and [Z.clearbit]; the pulse buffers
    are lists of raw timings with a cursor. *)

From Stdlib Require Import ZArith List Bool Lia.
Import ListNotations.
Local Open Scope Z_scope.

(** ** Fixed-width conversions *)

Definition u8 (x : Z) : Z := x mod 2 ^ 8.
Definition u16 (x : Z) : Z := x mod 2 ^ 16.
Definition u32 (x : Z) : Z := x mod 2 ^ 32.
Definition u64 (x : Z) : Z := x mod 2 ^ 64.

(** ** Protocol constants (aok_protocol.cpp, lines 10-21) *)

Definition AOK_PACKET_SIZE : nat := 64.
Definition AOK_HEADER : Z := 0xa3.
Definition AOK_PRE_POST_ZEROS : nat := 8 * 2.
Definition AOK_PACKET_PREFIX_MARK : Z := 5000.
Definition AOK_PACKET_SUFFIX_SPACE : Z := 5000.
Definition AOK_ONE_MARK : Z := 600.
Definition AOK_ONE_SPACE : Z := 275.
Definition AOK_ZERO_MARK : Z := 290.
Definition AOK_ZERO_SPACE : Z := 600.
Definition AOK_REPEATS : nat := 6.

(** ** Commands and channels (aok_protocol.h)

    [AOKCommand] and [AOKChannel] are unscoped enums over [uint8_t] and
    [uint16_t]; the decoder [static_cast]s arbitrary bytes into them, so a
    value of either type is any integer of the underlying width. *)

Definition COMMAND_UP : Z := 0x0b.
Definition COMMAND_DOWN : Z := 0x43.
Definition COMMAND_STOP : Z := 0x23.
Definition COMMAND_PROGRAM : Z := 0x53.
Definition COMMAND_RELEASE : Z := 0x24.

Definition CHANNEL_1 : Z := 0x0100.
Definition CHANNEL_2 : Z := 0x0200.
Definition CHANNEL_3 : Z := 0x0400.
Definition CHANNEL_4 : Z := 0x0800.
Definition CHANNEL_5 : Z := 0x1000.
Definition CHANNEL_6 : Z := 0x2000.
Definition CHANNEL_7 : Z := 0x4000.
Definition CHANNEL_8 : Z := 0x8000.
Definition CHANNEL_9 : Z := 0x0001.
Definition CHANNEL_10 : Z := 0x0002.
Definition CHANNEL_11 : Z := 0x0004.
Definition CHANNEL_12 : Z := 0x0008.
Definition CHANNEL_13 : Z := 0x0010.
Definition CHANNEL_14 : Z := 0x0020.
Definition CHANNEL_15 : Z := 0x0040.
Definition CHANNEL_16 : Z := 0x0080.
Definition CHANNEL_ALL : Z := 0xffff.

(** ** The packet (struct AOKData) *)

Record AOKData : Type := mkAOKData {
  device : Z;   (* uint32_t *)
  channel : Z;  (* AOKChannel : uint16_t *)
  command : Z   (* AOKCommand : uint8_t *)
}.

(** The values a C++ [AOKData] can hold: each field within its type. *)
Definition in_range (d : AOKData) : Prop :=
  0 <= device d < 2 ^ 32 /\ 0 <= channel d < 2 ^ 16 /\ 0 <= command d < 2 ^ 8.

(** A packet of the protocol: the device identifier is a 24-bit value. *)
Definition valid_packet (d : AOKData) : Prop :=
  0 <= device d < 2 ^ 24 /\ 0 <= channel d < 2 ^ 16 /\ 0 <= command d < 2 ^ 8.

Definition set_command (d : AOKData) (c : Z) : AOKData :=
  {| device := device d; channel := channel d; command := c |}.

(** Byte [k] of the object representation of an integer, as read through
    the [uint8_t*] casts of [checksum] on the little-endian targets the
    firmware is built for. *)
Definition byte_at (x : Z) (k : Z) : Z := Z.land (Z.shiftr x (8 * k)) 0xFF.

(** [AOKData::checksum]: the accumulator [sum] is a [uint16_t]. *)
Definition checksum (d : AOKData) : Z :=
  let sum := 0 in
  let sum := u16 (sum + (byte_at (device d) 0 + byte_at (device d) 1 + byte_at (device d) 2)) in
  let sum := u16 (sum + (byte_at (channel d) 0 + byte_at (channel d) 1)) in
  let sum := u16 (sum + command d) in
  u8 (Z.land sum 0xFF).

(** [AOKData::operator==]. *)
Definition AOKData_eqb (a b : AOKData) : bool :=
  (device a =? device b) && (channel a =? channel b) && (command a =? command b).

(** ** Packet codec *)

(** [AOKProtocol::packet_bits]: each field is converted to [uint64_t],
    shifted and or-ed into the bitset. *)
Definition packet_bits (d : AOKData) : Z :=
  let bits := 0 in
  let bits := Z.lor bits (u64 (Z.shiftl (u64 AOK_HEADER) 56)) in
  let bits := Z.lor bits (u64 (Z.shiftl (u64 (device d)) 32)) in
  let bits := Z.lor bits (u64 (Z.shiftl (u64 (channel d)) 16)) in
  let bits := Z.lor bits (u64 (Z.shiftl (u64 (command d)) 8)) in
  let bits := Z.lor bits (u64 (checksum d)) in
  bits.

(** The tail of [AOKProtocol::decode_packet] (lines 113-134): header check,
    field extraction and checksum validation on the assembled value. *)
Definition decode_bits (ulbits : Z) : option AOKData :=
  if negb (u8 (Z.shiftr ulbits 56) =? AOK_HEADER) then None
  else
    let d := {| device := u32 (Z.land (Z.shiftr ulbits 32) 0xffffff);
                channel := u16 (Z.land (Z.shiftr ulbits 16) 0xffff);
                command := u8 (Z.land (Z.shiftr ulbits 8) 0xff) |} in
    if negb (checksum d =? u8 (Z.land ulbits 0xff)) then None
    else Some d.

(** ** The pulse sink (RemoteTransmitData) *)

(** Modelled from the spec: [RemoteTransmitData] is declared in
    remote_base.h, which is not part of the sources at hand.  The sink takes
    a carrier frequency, a capacity hint and an ordered sequence of
    (mark, space) pairs; the buffer stores a mark as a positive and a space
    as a negative duration. *)
Record RemoteTransmitData : Type := mkTx {
  tx_carrier_frequency : Z;
  tx_reserved : Z;
  tx_data : list Z
}.

Definition empty_tx : RemoteTransmitData :=
  {| tx_carrier_frequency := 38000; tx_reserved := 0; tx_data := [] |}.

(** Modelled from the spec: [RemoteTransmitData::set_carrier_frequency]. *)
Definition set_carrier_frequency (dst : RemoteTransmitData) (f : Z) : RemoteTransmitData :=
  {| tx_carrier_frequency := f; tx_reserved := tx_reserved dst; tx_data := tx_data dst |}.

(** Modelled from the spec: [RemoteTransmitData::reserve], the capacity hint;
    it leaves the pulses alone. *)
Definition reserve (dst : RemoteTransmitData) (n : Z) : RemoteTransmitData :=
  {| tx_carrier_frequency := tx_carrier_frequency dst; tx_reserved := n; tx_data := tx_data dst |}.

(** Modelled from the spec: [RemoteTransmitData::item], one (mark, space)
    pair appended to the sequence. *)
Definition item (dst : RemoteTransmitData) (mark space : Z) : RemoteTransmitData :=
  {| tx_carrier_frequency := tx_carrier_frequency dst;
     tx_reserved := tx_reserved dst;
     tx_data := tx_data dst ++ [mark; - space] |}.

(** A counted [for (i = 0; i < n; ++i) body] over a state. *)
Definition for_loop {S : Type} (n : nat) (body : nat -> S -> S) (s : S) : S :=
  fold_left (fun st i => body i st) (seq 0 n) s.

(** ** Transmit encoder *)

(** [AOKProtocol::encode_packet]. *)
Definition encode_packet (dst : RemoteTransmitData) (d : AOKData) : RemoteTransmitData :=
  let dst := item dst AOK_PACKET_PREFIX_MARK AOK_ZERO_SPACE in
  let bits := packet_bits d in
  let dst :=
    for_loop AOK_PACKET_SIZE
      (fun i dst =>
         if Z.testbit bits (Z.of_nat (AOK_PACKET_SIZE - i - 1))
         then item dst AOK_ONE_MARK AOK_ONE_SPACE
         else item dst AOK_ZERO_MARK AOK_ZERO_SPACE) dst in
  item dst AOK_ONE_MARK AOK_PACKET_SUFFIX_SPACE.

Definition needs_release (d : AOKData) : bool :=
  (command d =? COMMAND_UP) || (command d =? COMMAND_DOWN).

(** [AOKProtocol::encode]. *)
Definition encode (dst : RemoteTransmitData) (d : AOKData) : RemoteTransmitData :=
  let dst := set_carrier_frequency dst 0 in
  let command_count := u8 (if needs_release d then 2 else 1) in
  let data_size :=
    u16 ((Z.of_nat AOK_PRE_POST_ZEROS
          + (((1 + Z.of_nat AOK_PACKET_SIZE + 1) * command_count) * Z.of_nat AOK_REPEATS)
          + Z.of_nat AOK_PRE_POST_ZEROS) * 2) in
  let dst := reserve dst data_size in
  let dst := for_loop AOK_PRE_POST_ZEROS (fun _ dst => item dst AOK_ZERO_MARK AOK_ZERO_SPACE) dst in
  let dst := for_loop AOK_REPEATS (fun _ dst => encode_packet dst d) dst in
  let dst :=
    if needs_release d then
      let data_release := set_command d COMMAND_RELEASE in
      for_loop AOK_REPEATS (fun _ dst => encode_packet dst data_release) dst
    else dst in
  let dst := for_loop AOK_PRE_POST_ZEROS (fun _ dst => item dst AOK_ZERO_MARK AOK_ZERO_SPACE) dst in
  dst.

(** ** The pulse source (RemoteReceiveData) *)

(** Modelled from the spec: [RemoteReceiveData] is declared in remote_base.h,
    which is not part of the sources at hand.  The source exposes the raw
    pulse durations (a mark positive, a space negative, as the sink stores
    them) and a read cursor counted in raw durations. *)
Record RemoteReceiveData : Type := mkRx {
  rx_data : list Z;
  rx_index : nat
}.

Definition size (src : RemoteReceiveData) : nat := length (rx_data src).
Definition get_index (src : RemoteReceiveData) : nat := rx_index src.

(** Modelled from the spec: [advance(n)] moves the cursor forward. *)
Definition advance (src : RemoteReceiveData) (amount : nat) : RemoteReceiveData :=
  {| rx_data := rx_data src; rx_index := (rx_index src + amount)%nat |}.

Definition is_valid (src : RemoteReceiveData) (offset : nat) : bool :=
  (rx_index src + offset <? size src)%nat.

(** Modelled from the spec: [peek(i)], the duration at offset [i] from the
    cursor, nothing consumed. *)
Definition peek (src : RemoteReceiveData) (offset : nat) : Z :=
  nth (rx_index src + offset) (rx_data src) 0.

Section Transport.

(** Modelled from the spec: the tolerance of the transport's match
    operations is implementation-defined; [within length value] says that
    the observed duration [value] matches the claimed [length]. *)
Variable within : Z -> Z -> bool.

(** Modelled from the spec: does the raw entry at [offset] hold a mark of
    the claimed length; nothing matches past the end of the buffer. *)
Definition peek_mark (src : RemoteReceiveData) (length : Z) (offset : nat) : bool :=
  if negb (is_valid src offset) then false
  else let value := peek src offset in (0 <=? value) && within length value.

(** Modelled from the spec: the same for a space. *)
Definition peek_space (src : RemoteReceiveData) (length : Z) (offset : nat) : bool :=
  if negb (is_valid src offset) then false
  else let value := peek src offset in (value <=? 0) && within length (- value).

(** Modelled from the spec: the peek match operation on a (mark, space)
    pair, optionally at a forward offset. *)
Definition peek_item (src : RemoteReceiveData) (mark space : Z) (offset : nat) : bool :=
  peek_space src space (offset + 1) && peek_mark src mark offset.

(** Modelled from the spec: the expect match operation, which consumes the
    pair when it matches. *)
Definition expect_item (src : RemoteReceiveData) (mark space : Z) : bool * RemoteReceiveData :=
  if negb (peek_item src mark space 0) then (false, src)
  else (true, advance src 2).

(** ** Receive decoder *)

(** The bit loop of [decode_packet] (lines 96-105) over the remaining
    loop indices; [None] is the [return {}] of the last branch. *)
Fixpoint capture_bits (idxs : list nat) (bits : Z) (src : RemoteReceiveData)
  : option Z * RemoteReceiveData :=
  match idxs with
  | [] => (Some bits, src)
  | i :: idxs' =>
      let '(one, src) := expect_item src AOK_ONE_MARK AOK_ONE_SPACE in
      if one then
        capture_bits idxs' (Z.setbit bits (Z.of_nat (AOK_PACKET_SIZE - i - 1))) src
      else
        let '(zero, src) := expect_item src AOK_ZERO_MARK AOK_ZERO_SPACE in
        if zero then
          capture_bits idxs' (Z.clearbit bits (Z.of_nat (AOK_PACKET_SIZE - i - 1))) src
        else (None, src)
  end.

(** [AOKProtocol::decode_packet]; the source is taken by reference, so the
    cursor it leaves behind is part of the outcome. *)
Definition decode_packet (src : RemoteReceiveData) : option AOKData * RemoteReceiveData :=
  let '(prefix, src) := expect_item src AOK_PACKET_PREFIX_MARK AOK_ZERO_SPACE in
  if negb prefix then (None, src)
  else
    match capture_bits (seq 0 AOK_PACKET_SIZE) 0 src with
    | (None, src) => (None, src)
    | (Some bits, src) =>
        let '(suffix, src) := expect_item src AOK_ONE_MARK AOK_PACKET_SUFFIX_SPACE in
        if negb suffix then (None, src)
        else
          let ulbits := u64 bits in
          (decode_bits ulbits, src)
    end.

(** [min_size] of [decode], a [uint8_t]. *)
Definition min_size : nat := 2 + (AOK_PACKET_SIZE * 2) + 2.

(** The bound of the sanity check of [decode] (line 142). *)
Definition min_stream_size : nat := (min_size * AOK_REPEATS) + (AOK_PRE_POST_ZEROS * 2).

(** How the inner loop of [decode] (lines 155-168) ends: the cursor is on a
    prefix, or the function bails out with [return {}]. *)
Inductive seek_outcome : Type :=
| PrefixFound (src : RemoteReceiveData)
| BailedOut (src : RemoteReceiveData)
| SeekFuel.

(** The inner [while (!src.peek_item(prefix))] loop.  Both loops of
    [decode] run past the sanity check only, where [size >= min_size], so
    [size - min_size] is the C++ difference. *)
Fixpoint seek_prefix (fuel : nat) (src : RemoteReceiveData) : seek_outcome :=
  match fuel with
  | O => SeekFuel
  | S fuel' =>
      if negb (peek_item src AOK_PACKET_PREFIX_MARK AOK_ZERO_SPACE 0) then
        let src :=
          if peek_item src AOK_PACKET_PREFIX_MARK AOK_ZERO_SPACE 1
          then advance src 1
          else advance src 2 in
        if (size src - min_size <? get_index src)%nat then BailedOut src
        else seek_prefix fuel' src
      else PrefixFound src
  end.

(** What a call of [decode] comes to: the returned optional and the cursor
    at that moment. *)
Inductive decode_outcome : Type :=
| Returned (result : option AOKData) (src : RemoteReceiveData)
| DecodeFuel.

(** The outer [while] loop of [decode] (lines 152-180) and the return
    that follows it; [packets] is the vector of decoded packets. *)
Fixpoint decode_loop (fuel : nat) (src : RemoteReceiveData) (packets : list AOKData)
  : decode_outcome :=
  match fuel with
  | O => DecodeFuel
  | S fuel' =>
      if (get_index src <? size src - min_size)%nat then
        match seek_prefix (S (size src)) src with
        | SeekFuel => DecodeFuel
        | BailedOut src => Returned None src
        | PrefixFound src =>
            let '(packet, src) := decode_packet src in
            let packets :=
              match packet with
              | Some p => packets ++ [p]
              | None => packets
              end in
            decode_loop fuel' src packets
        end
      else
        match packets with
        | [] => Returned None src
        | front :: _ => Returned (Some front) src
        end
  end.

(** [AOKProtocol::decode], with the cursor at the return. *)
Definition decode_run (src : RemoteReceiveData) : decode_outcome :=
  if (size src <? min_stream_size)%nat then Returned None src
  else decode_loop (S (size src)) src [].

(** [AOKProtocol::decode]: the optional packet it returns. *)
Definition decode (src : RemoteReceiveData) : option AOKData :=
  match decode_run src with
  | Returned result _ => result
  | DecodeFuel => None
  end.

End Transport.

(** The source as a receiver hands it to [decode]: the raw timings with the
    cursor at the start. *)
Definition received (raw : list Z) : RemoteReceiveData :=
  {| rx_data := raw; rx_index := 0 |}.

(** ** A percentage tolerance

    Modelled from the spec: one implementation of the transport's tolerance,
    a window of [tolerance] percent around the claimed length. *)
Definition lower_bound_ (tolerance length : Z) : Z := (100 - tolerance) * length / 100.
Definition upper_bound_ (tolerance length : Z) : Z := (100 + tolerance) * length / 100.
Definition within_percent (tolerance : Z) (length value : Z) : bool :=
  (lower_bound_ tolerance length <=? value) && (value <=? upper_bound_ tolerance length).

(** ** Vocabulary of the statements *)

(** The pulses of one frame: what [encode_packet] appends to an empty sink. *)
Definition frame (d : AOKData) : list Z := tx_data (encode_packet empty_tx d).

(** A frame repeated the fixed repeat count. *)
Definition burst (d : AOKData) : list Z := concat (repeat (frame d) AOK_REPEATS).

(** [n] zero symbols, as the preamble and the postamble are made of. *)
Definition zero_symbols (n : nat) : list Z :=
  concat (repeat [AOK_ZERO_MARK; - AOK_ZERO_SPACE] n).

(** The pulse pair of one bit. *)
Definition bit_symbol (b : bool) : list Z :=
  if b then [AOK_ONE_MARK; - AOK_ONE_SPACE] else [AOK_ZERO_MARK; - AOK_ZERO_SPACE].

(** The 64 bit symbols of a value, most significant bit first. *)
Definition bit_symbols (bits : Z) : list Z :=
  concat (map (fun i => bit_symbol (Z.testbit bits (Z.of_nat (AOK_PACKET_SIZE - i - 1))))
              (seq 0 AOK_PACKET_SIZE)).

(** The whole transmission of a packet, from a fresh sink. *)
Definition transmission (d : AOKData) : list Z := tx_data (encode empty_tx d).

(** The pulses ahead of the cursor. *)
Definition rest (src : RemoteReceiveData) : list Z := skipn (rx_index src) (rx_data src).

(** A tolerance under which the protocol's symbols can be told apart: every
    nominal duration matches itself, a zero symbol is not taken for a one,
    and the mark of a zero symbol is not taken for the mark of a prefix. *)
Definition distinguishes (within : Z -> Z -> bool) : bool :=
  within AOK_PACKET_PREFIX_MARK AOK_PACKET_PREFIX_MARK
  && within AOK_PACKET_SUFFIX_SPACE AOK_PACKET_SUFFIX_SPACE
  && within AOK_ONE_MARK AOK_ONE_MARK
  && within AOK_ONE_SPACE AOK_ONE_SPACE
  && within AOK_ZERO_MARK AOK_ZERO_MARK
  && within AOK_ZERO_SPACE AOK_ZERO_SPACE
  && negb (within AOK_ONE_MARK AOK_ZERO_MARK && within AOK_ONE_SPACE AOK_ZERO_SPACE)
  && negb (within AOK_PACKET_PREFIX_MARK AOK_ZERO_MARK).

(** The fields [decode_packet] reads out of an assembled value. *)
Definition extracted (ulbits : Z) : AOKData :=
  {| device := u32 (Z.land (Z.shiftr ulbits 32) 0xffffff);
     channel := u16 (Z.land (Z.shiftr ulbits 16) 0xffff);
     command := u8 (Z.land (Z.shiftr ulbits 8) 0xff) |}.

(** A raw pair [m], [s] taken for the symbol (mark, space): what
    [peek_item] computes on the two entries it inspects. *)
Definition pair_matches (within : Z -> Z -> bool) (mark space m s : Z) : bool :=
  ((s <=? 0) && within space (- s)) && ((0 <=? m) && within mark m).

(** The value the bit loop of [decode_packet] builds when the symbols
    ahead spell the bits of [v] at the positions [idxs]. *)
Definition copy_bits (v : Z) (idxs : list nat) (acc : Z) : Z :=
  fold_left (fun b i =>
               if Z.testbit v (Z.of_nat (AOK_PACKET_SIZE - i - 1))
               then Z.setbit b (Z.of_nat (AOK_PACKET_SIZE - i - 1))
               else Z.clearbit b (Z.of_nat (AOK_PACKET_SIZE - i - 1))) idxs acc.

(** ** Sample packets and streams *)

Definition stop_packet : AOKData :=
  {| device := 0x010203; channel := CHANNEL_1; command := COMMAND_STOP |}.

Definition up_packet : AOKData :=
  {| device := 0x010203; channel := CHANNEL_1; command := COMMAND_UP |}.

(** A device identifier with bit 26 set, above the 24 bits of the field. *)
Definition wide_device_packet : AOKData :=
  {| device := 0x04000000; channel := CHANNEL_1; command := COMMAND_STOP |}.

(** One valid frame followed by 346 pulse pairs that match no prefix:
    824 raw durations, the shortest stream the scan accepts. *)
Definition frame_then_noise : list Z := frame stop_packet ++ zero_symbols 346.

(** A whole transmission followed by 51 more idle pulse pairs. *)
Definition transmission_then_noise : list Z := transmission stop_packet ++ zero_symbols 51.

(** A stray pulse, then a valid frame, then pulse pairs that match no prefix. *)
Definition misaligned_frame_then_noise : list Z := 7 :: frame stop_packet ++ zero_symbols 346.

(** ** The action (AOKAction)

    Modelled from the spec: the [TEMPLATABLE_VALUE] fields of the action are
    declared by a macro that is not part of the sources at hand; they supply
    the resolved value of each field, of the width of its type. *)

(** [AOKAction::encode]: the packet is built from the three values and
    handed to [AOKProtocol::encode]. *)
Definition AOKAction_encode (dst : RemoteTransmitData) (device_ channel_ command_ : Z)
  : RemoteTransmitData :=
  let data := {| device := u32 device_; channel := u16 channel_; command := u8 command_ |} in
  encode dst data.

(** ** Vocabulary of the further properties *)

(** The symbols of a frame as (mark, space) pairs, as [encode_packet] emits
    them. *)
Definition frame_symbols (d : AOKData) : list (Z * Z) :=
  (AOK_PACKET_PREFIX_MARK, AOK_ZERO_SPACE)
    :: map (fun i => if Z.testbit (packet_bits d) (Z.of_nat (AOK_PACKET_SIZE - i - 1))
                     then (AOK_ONE_MARK, AOK_ONE_SPACE)
                     else (AOK_ZERO_MARK, AOK_ZERO_SPACE))
           (seq 0 AOK_PACKET_SIZE)
    ++ [(AOK_ONE_MARK, AOK_PACKET_SUFFIX_SPACE)].

(** The raw durations start with pairs that match the given symbols, one
    after the other, within the tolerance. *)
Fixpoint symbols_ahead (within : Z -> Z -> bool) (symbols : list (Z * Z)) (raw : list Z) : bool :=
  match symbols, raw with
  | [], _ => true
  | (mark, space) :: symbols', m :: s :: raw' =>
      pair_matches within mark space m s && symbols_ahead within symbols' raw'
  | _ :: _, _ => false
  end.

(** * Properties *)

(** ** The packet codec *)

Lemma lor_disjoint_add (hi lo n : Z) :
  0 <= n -> 0 <= lo < 2 ^ n -> Z.lor (hi * 2 ^ n) lo = hi * 2 ^ n + lo.
Proof.
  intros Hn Hlo.
  rewrite <- Z.lxor_lor, <- Z.add_nocarry_lxor; trivial.
  all: apply Z.bits_inj'; intros k Hk; rewrite Z.land_spec, Z.bits_0.
  all: destruct (Z.lt_ge_cases k n) as [Hlt | Hge].
  all: try (rewrite Z.mul_pow2_bits_low by lia; reflexivity).
  all: replace lo with (lo mod 2 ^ n) by (apply Z.mod_small; lia).
  all: rewrite Z.mod_pow2_bits_high by lia; apply andb_false_r.
Qed.

Lemma byte_at_spec x k : 0 <= k -> byte_at x k = (x / 2 ^ (8 * k)) mod 2 ^ 8.
Proof.
  intros Hk. unfold byte_at.
  change 0xFF with (Z.ones 8).
  rewrite Z.land_ones, Z.shiftr_div_pow2 by lia. reflexivity.
Qed.

Lemma checksum_range d : 0 <= checksum d < 2 ^ 8.
Proof. unfold checksum, u8. apply Z.mod_pos_bound. reflexivity. Qed.

Lemma packet_bits_sum d :
  0 <= device d < 2 ^ 24 -> 0 <= channel d < 2 ^ 16 -> 0 <= command d < 2 ^ 8 ->
  packet_bits d =
    AOK_HEADER * 2 ^ 56 + device d * 2 ^ 32 + channel d * 2 ^ 16 + command d * 2 ^ 8 + checksum d.
Proof.
  intros Hd Hc Hk.
  pose proof (checksum_range d) as Hs.
  unfold packet_bits, u64, AOK_HEADER in *.
  rewrite !Z.shiftl_mul_pow2 by lia.
  rewrite Z.lor_0_l.
  rewrite !(Z.mod_small (device d)), !(Z.mod_small (channel d)),
          !(Z.mod_small (command d)), !(Z.mod_small (checksum d)) by lia.
  change (163 mod 2 ^ 64) with 163.
  rewrite !Z.mod_small by lia.
  rewrite <- !Z.add_assoc.
  rewrite <- (lor_disjoint_add 0xa3 _ 56) by lia.
  rewrite <- !Z.lor_assoc. f_equal.
  rewrite <- (lor_disjoint_add (device d) _ 32) by lia. f_equal.
  rewrite <- (lor_disjoint_add (channel d) _ 16) by lia. f_equal.
  rewrite <- (lor_disjoint_add (command d) _ 8) by lia. reflexivity.
Qed.

Lemma decode_bits_packet_bits d : valid_packet d -> decode_bits (packet_bits d) = Some d.
Proof.
  intros (Hd & Hc & Hk).
  pose proof (checksum_range d) as Hs.
  rewrite packet_bits_sum by assumption.
  unfold decode_bits, u8, u16, u32, AOK_HEADER.
  change 0xffffff with (Z.ones 24). change 0xffff with (Z.ones 16). change 0xff with (Z.ones 8).
  rewrite !Z.land_ones, !Z.shiftr_div_pow2 by lia.
  set (v := 163 * 2 ^ 56 + device d * 2 ^ 32 + channel d * 2 ^ 16 + command d * 2 ^ 8 + checksum d).
  assert (H56 : (v / 2 ^ 56) mod 2 ^ 8 = 163) by (subst v; Z.div_mod_to_equations; lia).
  assert (H32 : ((v / 2 ^ 32) mod 2 ^ 24) mod 2 ^ 32 = device d) by (subst v; Z.div_mod_to_equations; lia).
  assert (H16 : ((v / 2 ^ 16) mod 2 ^ 16) mod 2 ^ 16 = channel d) by (subst v; Z.div_mod_to_equations; lia).
  assert (H8 : ((v / 2 ^ 8) mod 2 ^ 8) mod 2 ^ 8 = command d) by (subst v; Z.div_mod_to_equations; lia).
  assert (H0 : (v mod 2 ^ 8) mod 2 ^ 8 = checksum d) by (subst v; Z.div_mod_to_equations; lia).
  rewrite H56, H32, H16, H8, H0. simpl negb.
  replace {| device := device d; channel := channel d; command := command d |} with d by (destruct d; reflexivity).
  rewrite Z.eqb_refl. reflexivity.
Qed.

(** ** The sink *)

Lemma tx_data_item dst mark space :
  tx_data (item dst mark space) = tx_data dst ++ [mark; - space].
Proof. reflexivity. Qed.

Lemma for_loop_appends (chunk : nat -> list Z) (body : nat -> RemoteTransmitData -> RemoteTransmitData) :
  (forall i dst, tx_data (body i dst) = tx_data dst ++ chunk i) ->
  forall n dst, tx_data (for_loop n body dst) = tx_data dst ++ concat (map chunk (seq 0 n)).
Proof.
  intros Hbody n dst. unfold for_loop.
  generalize (seq 0 n) as l. intros l. revert dst.
  induction l as [| i l IH]; intros dst; simpl.
  - now rewrite app_nil_r.
  - rewrite IH, Hbody, <- app_assoc. reflexivity.
Qed.

Lemma map_const_seq {A} (x : A) n s : map (fun _ => x) (seq s n) = repeat x n.
Proof. revert s; induction n; intros s; simpl; [| rewrite IHn]; reflexivity. Qed.

Lemma tx_data_encode_packet dst d :
  tx_data (encode_packet dst d) =
    tx_data dst ++ [AOK_PACKET_PREFIX_MARK; - AOK_ZERO_SPACE] ++ bit_symbols (packet_bits d)
      ++ [AOK_ONE_MARK; - AOK_PACKET_SUFFIX_SPACE].
Proof.
  unfold encode_packet. rewrite tx_data_item.
  rewrite (for_loop_appends
             (fun i => bit_symbol (Z.testbit (packet_bits d) (Z.of_nat (AOK_PACKET_SIZE - i - 1))))).
  - rewrite tx_data_item, <- !app_assoc. reflexivity.
  - intros i dst'. destruct (Z.testbit _ _); reflexivity.
Qed.

Lemma frame_eq d :
  frame d = [AOK_PACKET_PREFIX_MARK; - AOK_ZERO_SPACE] ++ bit_symbols (packet_bits d)
              ++ [AOK_ONE_MARK; - AOK_PACKET_SUFFIX_SPACE].
Proof. unfold frame. rewrite tx_data_encode_packet. reflexivity. Qed.

Lemma tx_data_encode_packet_frame dst d :
  tx_data (encode_packet dst d) = tx_data dst ++ frame d.
Proof. rewrite frame_eq. apply tx_data_encode_packet. Qed.

Lemma tx_data_encode dst d :
  tx_data (encode dst d) =
    tx_data dst ++ zero_symbols AOK_PRE_POST_ZEROS ++ burst d
      ++ (if needs_release d then burst (set_command d COMMAND_RELEASE) else [])
      ++ zero_symbols AOK_PRE_POST_ZEROS.
Proof.
  unfold encode.
  set (zero := fun (_ : nat) (dst : RemoteTransmitData) => item dst AOK_ZERO_MARK AOK_ZERO_SPACE).
  assert (Hzero : forall n dst', tx_data (for_loop n zero dst') = tx_data dst' ++ zero_symbols n).
  { intros n dst'. rewrite (for_loop_appends (fun _ => [AOK_ZERO_MARK; - AOK_ZERO_SPACE])) by reflexivity.
    unfold zero_symbols. now rewrite map_const_seq. }
  assert (Hburst : forall p dst',
             tx_data (for_loop AOK_REPEATS (fun _ dst => encode_packet dst p) dst') = tx_data dst' ++ burst p).
  { intros p dst'. rewrite (for_loop_appends (fun _ => frame p)).
    - unfold burst. now rewrite map_const_seq.
    - intros _ dst''. apply tx_data_encode_packet_frame. }
  cbv zeta. rewrite Hzero.
  destruct (needs_release d).
  - rewrite !Hburst, Hzero. cbn [tx_data reserve set_carrier_frequency]. now rewrite <- !app_assoc.
  - rewrite !Hburst, Hzero. cbn [tx_data reserve set_carrier_frequency]. now rewrite <- !app_assoc.
Qed.

Lemma length_bit_symbol b : length (bit_symbol b) = 2%nat.
Proof. destruct b; reflexivity. Qed.

Lemma length_concat_pairs {A} (f : A -> list Z) (l : list A) :
  (forall a, length (f a) = 2%nat) -> length (concat (map f l)) = (2 * length l)%nat.
Proof.
  intros Hf. induction l as [| a l IH]; cbn [map concat length]; [reflexivity |].
  rewrite length_app, IH, Hf. lia.
Qed.

Lemma length_bit_symbols v : length (bit_symbols v) = 128%nat.
Proof.
  unfold bit_symbols.
  rewrite length_concat_pairs by (intros; apply length_bit_symbol).
  rewrite length_seq. reflexivity.
Qed.

Lemma length_frame d : length (frame d) = 132%nat.
Proof. rewrite frame_eq, !length_app, length_bit_symbols. reflexivity. Qed.

Lemma length_concat_repeat {A} (l : list A) n : length (concat (repeat l n)) = (n * length l)%nat.
Proof. induction n; simpl; [| rewrite length_app, IHn]; lia. Qed.

Lemma length_burst d : length (burst d) = 792%nat.
Proof. unfold burst. rewrite length_concat_repeat, length_frame. reflexivity. Qed.

Lemma length_zero_symbols n : length (zero_symbols n) = (2 * n)%nat.
Proof. unfold zero_symbols. rewrite length_concat_repeat. cbn [length]. lia. Qed.

Lemma transmission_eq d :
  transmission d =
    zero_symbols AOK_PRE_POST_ZEROS ++ burst d
      ++ (if needs_release d then burst (set_command d COMMAND_RELEASE) else [])
      ++ zero_symbols AOK_PRE_POST_ZEROS.
Proof. unfold transmission. rewrite tx_data_encode. apply app_nil_l. Qed.

Lemma length_transmission d :
  length (transmission d) = if needs_release d then 1648%nat else 856%nat.
Proof.
  rewrite transmission_eq, !length_app, !length_zero_symbols, length_burst.
  destruct (needs_release d); [rewrite length_burst; reflexivity | reflexivity].
Qed.

(** ** The source *)

Lemma length_rest src : length (rest src) = (size src - rx_index src)%nat.
Proof. unfold rest, size. apply length_skipn. Qed.

Lemma is_valid_rest src off : is_valid src off = (off <? length (rest src))%nat.
Proof.
  rewrite length_rest. unfold is_valid.
  destruct (Nat.ltb_spec (rx_index src + off) (size src)), (Nat.ltb_spec off (size src - rx_index src)); trivial; lia.
Qed.

Lemma peek_rest src off : peek src off = nth off (rest src) 0.
Proof. unfold peek, rest. now rewrite nth_skipn. Qed.

Lemma rest_advance src n : rest (advance src n) = skipn n (rest src).
Proof. unfold rest, advance. cbn [rx_index rx_data]. rewrite skipn_skipn. f_equal. lia. Qed.

Lemma size_advance src n : size (advance src n) = size src.
Proof. reflexivity. Qed.

Lemma advance_advance src a b : advance (advance src a) b = advance src (a + b).
Proof. unfold advance. cbn [rx_index rx_data]. now rewrite Nat.add_assoc. Qed.

Lemma advance_0 src : advance src 0 = src.
Proof. destruct src as [raw i]. unfold advance. cbn [rx_index rx_data]. now rewrite Nat.add_0_r. Qed.

Section Source.

Variable within : Z -> Z -> bool.

Lemma peek_mark_rest src len off :
  peek_mark within src len off =
    match nth_error (rest src) off with
    | Some v => (0 <=? v) && within len v
    | None => false
    end.
Proof.
  unfold peek_mark. rewrite is_valid_rest, peek_rest.
  destruct (Nat.ltb_spec off (length (rest src))) as [Hlt | Hge]; cbn [negb].
  - destruct (nth_error (rest src) off) eqn:E.
    + now rewrite (nth_error_nth _ _ _ E).
    + apply nth_error_None in E. lia.
  - apply nth_error_None in Hge. now rewrite Hge.
Qed.

Lemma peek_space_rest src len off :
  peek_space within src len off =
    match nth_error (rest src) off with
    | Some v => (v <=? 0) && within len (- v)
    | None => false
    end.
Proof.
  unfold peek_space. rewrite is_valid_rest, peek_rest.
  destruct (Nat.ltb_spec off (length (rest src))) as [Hlt | Hge]; cbn [negb].
  - destruct (nth_error (rest src) off) eqn:E.
    + now rewrite (nth_error_nth _ _ _ E).
    + apply nth_error_None in E. lia.
  - apply nth_error_None in Hge. now rewrite Hge.
Qed.

Lemma peek_item_here src mark space m s l :
  rest src = m :: s :: l ->
  peek_item within src mark space 0 = pair_matches within mark space m s.
Proof.
  intros H. unfold peek_item. rewrite peek_mark_rest, peek_space_rest, H. reflexivity.
Qed.

Lemma peek_item_ahead src mark space a m s l :
  rest src = a :: m :: s :: l ->
  peek_item within src mark space 1 = pair_matches within mark space m s.
Proof.
  intros H. unfold peek_item. rewrite peek_mark_rest, peek_space_rest, H. reflexivity.
Qed.

Lemma peek_item_ahead_space src mark space a m l :
  rest src = a :: m :: l -> m < 0 ->
  peek_item within src mark space 1 = false.
Proof.
  intros H Hm. unfold peek_item. rewrite peek_mark_rest, H. cbn [nth_error].
  destruct (Z.leb_spec 0 m); [lia |]. apply andb_false_r.
Qed.

Lemma peek_item_here_mark src mark space m s l :
  rest src = m :: s :: l -> 0 < s ->
  peek_item within src mark space 0 = false.
Proof.
  intros H Hs. rewrite (peek_item_here _ _ _ _ _ _ H). unfold pair_matches.
  destruct (Z.leb_spec s 0); [lia |]. reflexivity.
Qed.

Lemma expect_item_hit src mark space m s l :
  rest src = m :: s :: l ->
  pair_matches within mark space m s = true ->
  expect_item within src mark space = (true, advance src 2).
Proof.
  intros H Hm. unfold expect_item. now rewrite (peek_item_here _ _ _ _ _ _ H), Hm.
Qed.

Lemma expect_item_miss src mark space m s l :
  rest src = m :: s :: l ->
  pair_matches within mark space m s = false ->
  expect_item within src mark space = (false, src).
Proof.
  intros H Hm. unfold expect_item. now rewrite (peek_item_here _ _ _ _ _ _ H), Hm.
Qed.

Lemma rest_advance_2 src m s l : rest src = m :: s :: l -> rest (advance src 2) = l.
Proof. intros H. now rewrite rest_advance, H. Qed.

End Source.

(** ** Single frames *)

Lemma testbit_copy_bits v idxs : forall acc k, 0 <= k ->
  Z.testbit (copy_bits v idxs acc) k =
    if existsb (fun i => Z.of_nat (AOK_PACKET_SIZE - i - 1) =? k) idxs
    then Z.testbit v k else Z.testbit acc k.
Proof.
  unfold copy_bits.
  induction idxs as [| i idxs IH]; intros acc k Hk; cbn [fold_left existsb]; [reflexivity |].
  rewrite IH by assumption.
  destruct (existsb _ idxs); [now rewrite orb_true_r |]. rewrite orb_false_r.
  set (j := Z.of_nat (AOK_PACKET_SIZE - i - 1)).
  destruct (Z.eqb_spec j k) as [-> | Hne].
  - destruct (Z.testbit v k) eqn:E.
    + now rewrite Z.setbit_eq.
    + now rewrite Z.clearbit_eq.
  - destruct (Z.testbit v j).
    + now rewrite Z.setbit_neq by lia.
    + now rewrite Z.clearbit_neq by lia.
Qed.

Lemma existsb_seq_position k :
  0 <= k ->
  existsb (fun i => Z.of_nat (AOK_PACKET_SIZE - i - 1) =? k) (seq 0 AOK_PACKET_SIZE) = (k <? 64).
Proof.
  intros Hk. destruct (Z.ltb_spec k 64) as [Hlt | Hge].
  - apply existsb_exists. exists (63 - Z.to_nat k)%nat. split.
    + apply in_seq. unfold AOK_PACKET_SIZE. lia.
    + apply Z.eqb_eq. unfold AOK_PACKET_SIZE. lia.
  - apply not_true_is_false. intros H. apply existsb_exists in H as (i & Hin & Hi).
    apply in_seq in Hin. apply Z.eqb_eq in Hi. unfold AOK_PACKET_SIZE in *. lia.
Qed.

Lemma copy_bits_all v : copy_bits v (seq 0 AOK_PACKET_SIZE) 0 = v mod 2 ^ 64.
Proof.
  apply Z.bits_inj'. intros k Hk.
  rewrite testbit_copy_bits, existsb_seq_position by assumption.
  destruct (Z.ltb_spec k 64).
  - now rewrite Z.mod_pow2_bits_low by lia.
  - now rewrite Z.mod_pow2_bits_high, Z.bits_0 by lia.
Qed.

Lemma packet_bits_range d : valid_packet d -> 0 <= packet_bits d < 2 ^ 64.
Proof.
  intros (Hd & Hc & Hk). pose proof (checksum_range d).
  rewrite packet_bits_sum by assumption. unfold AOK_HEADER. lia.
Qed.

Lemma distinguishes_spec within :
  distinguishes within = true ->
  pair_matches within AOK_PACKET_PREFIX_MARK AOK_ZERO_SPACE AOK_PACKET_PREFIX_MARK (- AOK_ZERO_SPACE) = true
  /\ pair_matches within AOK_ONE_MARK AOK_PACKET_SUFFIX_SPACE AOK_ONE_MARK (- AOK_PACKET_SUFFIX_SPACE) = true
  /\ pair_matches within AOK_ONE_MARK AOK_ONE_SPACE AOK_ONE_MARK (- AOK_ONE_SPACE) = true
  /\ pair_matches within AOK_ZERO_MARK AOK_ZERO_SPACE AOK_ZERO_MARK (- AOK_ZERO_SPACE) = true
  /\ pair_matches within AOK_ONE_MARK AOK_ONE_SPACE AOK_ZERO_MARK (- AOK_ZERO_SPACE) = false
  /\ pair_matches within AOK_PACKET_PREFIX_MARK AOK_ZERO_SPACE AOK_ZERO_MARK (- AOK_ZERO_SPACE) = false.
Proof.
  unfold distinguishes, pair_matches. rewrite !andb_true_iff, !negb_true_iff.
  intros (((((((H1 & H2) & H3) & H4) & H5) & H6) & H7) & H8).
  rewrite !Z.opp_involutive.
  cbv [AOK_PACKET_PREFIX_MARK AOK_PACKET_SUFFIX_SPACE AOK_ONE_MARK AOK_ONE_SPACE AOK_ZERO_MARK AOK_ZERO_SPACE] in *.
  cbn [Z.leb Z.opp Z.compare].
  rewrite ?H1, ?H2, ?H3, ?H4, ?H5, ?H6, ?H8. repeat split; try reflexivity.
  rewrite andb_comm in H7. cbn [andb]. exact H7.
Qed.

Section Frames.

Variable within : Z -> Z -> bool.
Hypothesis Hwithin : distinguishes within = true.

Lemma capture_bits_symbols v : forall idxs acc src l,
  rest src =
    concat (map (fun i => bit_symbol (Z.testbit v (Z.of_nat (AOK_PACKET_SIZE - i - 1)))) idxs) ++ l ->
  capture_bits within idxs acc src = (Some (copy_bits v idxs acc), advance src (2 * length idxs)).
Proof.
  destruct (distinguishes_spec _ Hwithin) as (_ & _ & Hone & Hzero & Hnot & _).
  induction idxs as [| i idxs IH]; intros acc src l Hrest.
  - cbn [capture_bits copy_bits fold_left length Nat.mul]. now rewrite advance_0.
  - cbn [map concat] in Hrest. rewrite <- app_assoc in Hrest.
    cbn [capture_bits]. unfold copy_bits. cbn [fold_left]. fold (copy_bits v idxs).
    replace (2 * length (i :: idxs))%nat with (2 + 2 * length idxs)%nat by (cbn [length]; lia).
    rewrite <- advance_advance.
    destruct (Z.testbit v (Z.of_nat (AOK_PACKET_SIZE - i - 1))); cbn [bit_symbol app] in Hrest.
    + rewrite (expect_item_hit _ _ _ _ _ _ _ Hrest Hone).
      apply (IH _ _ l). apply (rest_advance_2 _ _ _ _ Hrest).
    + rewrite (expect_item_miss _ _ _ _ _ _ _ Hrest Hnot).
      rewrite (expect_item_hit _ _ _ _ _ _ _ Hrest Hzero).
      apply (IH _ _ l). apply (rest_advance_2 _ _ _ _ Hrest).
Qed.

Lemma decode_packet_frame d src l :
  valid_packet d ->
  rest src = frame d ++ l ->
  decode_packet within src = (Some d, advance src 132).
Proof.
  intros Hd Hrest.
  destruct (distinguishes_spec _ Hwithin) as (Hprefix & Hsuffix & _).
  rewrite frame_eq in Hrest. rewrite <- !app_assoc in Hrest. cbn [app] in Hrest.
  unfold decode_packet.
  rewrite (expect_item_hit _ _ _ _ _ _ _ Hrest Hprefix). cbn [negb].
  pose proof (rest_advance_2 _ _ _ _ Hrest) as Hbits.
  unfold bit_symbols in Hbits.
  rewrite (capture_bits_symbols _ _ _ _ _ Hbits).
  assert (Hsfx : rest (advance (advance src 2) (2 * length (seq 0 AOK_PACKET_SIZE)))
                 = AOK_ONE_MARK :: - AOK_PACKET_SUFFIX_SPACE :: l).
  { rewrite rest_advance, Hbits.
    rewrite <- (length_concat_pairs
                  (fun i => bit_symbol (Z.testbit (packet_bits d) (Z.of_nat (AOK_PACKET_SIZE - i - 1)))))
      by (intros; apply length_bit_symbol).
    now rewrite skipn_app, skipn_all, Nat.sub_diag. }
  rewrite (expect_item_hit _ _ _ _ _ _ _ Hsfx Hsuffix). cbn [negb].
  rewrite copy_bits_all. unfold u64. rewrite Z.mod_mod by lia.
  rewrite Z.mod_small by (apply packet_bits_range; assumption).
  rewrite decode_bits_packet_bits by assumption.
  rewrite !advance_advance, length_seq. reflexivity.
Qed.

End Frames.

(** ** The scan *)

Lemma loop_guard_rest src :
  (get_index src <? size src - min_size)%nat = (min_size <? length (rest src))%nat.
Proof.
  rewrite length_rest. unfold get_index.
  destruct (Nat.ltb_spec (rx_index src) (size src - min_size)),
           (Nat.ltb_spec min_size (size src - rx_index src)); trivial; lia.
Qed.

Lemma bail_guard_rest src :
  (min_size <= size src)%nat ->
  (size src - min_size <? get_index src)%nat = (length (rest src) <? min_size)%nat.
Proof.
  intros Hsize. rewrite length_rest. unfold get_index.
  change min_size with 132%nat in *.
  destruct (Nat.ltb_spec (size src - 132) (rx_index src)),
           (Nat.ltb_spec (size src - rx_index src) 132); trivial; lia.
Qed.

Lemma zero_symbols_S n :
  zero_symbols (S n) = AOK_ZERO_MARK :: - AOK_ZERO_SPACE :: zero_symbols n.
Proof. reflexivity. Qed.

Lemma frame_starts d : exists l, frame d = AOK_PACKET_PREFIX_MARK :: - AOK_ZERO_SPACE :: l.
Proof. rewrite frame_eq. eexists. reflexivity. Qed.

Lemma concat_map_cons {A B} (f : A -> list B) a l :
  concat (map f (a :: l)) = f a ++ concat (map f l).
Proof. reflexivity. Qed.

Section Scan.

Variable within : Z -> Z -> bool.
Hypothesis Hwithin : distinguishes within = true.

Lemma seek_prefix_here fuel src l :
  rest src = AOK_PACKET_PREFIX_MARK :: - AOK_ZERO_SPACE :: l ->
  seek_prefix within (S fuel) src = PrefixFound src.
Proof.
  intros Hrest. destruct (distinguishes_spec _ Hwithin) as (Hprefix & _).
  cbn [seek_prefix]. now rewrite (peek_item_here _ _ _ _ _ _ _ Hrest), Hprefix.
Qed.

(** Zero symbols ahead of a prefix are skipped pair by pair. *)
Lemma seek_prefix_zeros k : forall fuel src l,
  rest src = zero_symbols k ++ AOK_PACKET_PREFIX_MARK :: - AOK_ZERO_SPACE :: l ->
  (min_size <= size src)%nat ->
  (min_size <= 2 + length l)%nat ->
  (k < fuel)%nat ->
  seek_prefix within fuel src = PrefixFound (advance src (2 * k)).
Proof.
  destruct (distinguishes_spec _ Hwithin) as (_ & _ & _ & _ & _ & Hnot).
  induction k as [| k IH]; intros fuel src l Hrest Hsize Hl Hfuel.
  - destruct fuel as [| fuel]; [lia |]. cbn [zero_symbols repeat concat app] in Hrest.
    rewrite (seek_prefix_here _ _ _ Hrest). now rewrite advance_0.
  - destruct fuel as [| fuel]; [lia |].
    rewrite zero_symbols_S in Hrest. cbn [app] in Hrest.
    cbn [seek_prefix].
    rewrite (peek_item_here _ _ _ _ _ _ _ Hrest), Hnot. cbn [negb].
    rewrite (peek_item_ahead_space _ _ _ _ _ _ _ Hrest) by (unfold AOK_ZERO_SPACE; lia).
    pose proof (rest_advance_2 _ _ _ _ Hrest) as Hnext.
    rewrite bail_guard_rest by assumption.
    rewrite Hnext.
    destruct (Nat.ltb_spec (length (zero_symbols k ++ AOK_PACKET_PREFIX_MARK :: - AOK_ZERO_SPACE :: l)) min_size) as [Hlt | _].
    { rewrite length_app in Hlt. cbn [length] in Hlt. lia. }
    rewrite (IH fuel _ l Hnext) by (assumption || lia).
    rewrite advance_advance. do 2 f_equal. lia.
Qed.

(** Back-to-back frames are decoded one after the other; the loop ends
    on the pulses left after the last of them. *)
Lemma decode_loop_frames ps : forall fuel src acc l,
  Forall valid_packet ps ->
  rest src = concat (map frame ps) ++ l ->
  (0 < length l <= min_size)%nat ->
  (length ps < fuel)%nat ->
  decode_loop within fuel src acc =
    Returned (hd_error (acc ++ ps)) (advance src (132 * length ps)).
Proof.
  induction ps as [| p ps IH]; intros fuel src acc l Hvalid Hrest Hl Hfuel.
  - destruct fuel as [| fuel]; [cbn [length] in Hfuel; lia |].
    cbn [map concat app] in Hrest. cbn [decode_loop].
    rewrite loop_guard_rest, Hrest.
    destruct (Nat.ltb_spec min_size (length l)); [lia |].
    rewrite app_nil_r, advance_0. now destruct acc.
  - destruct fuel as [| fuel]; [cbn [length] in Hfuel; lia |].
    inversion Hvalid as [| ? ? Hp Hps]; subst.
    rewrite concat_map_cons, <- app_assoc in Hrest.
    cbn [decode_loop].
    rewrite loop_guard_rest, Hrest.
    destruct (Nat.ltb_spec min_size (length (frame p ++ concat (map frame ps) ++ l))) as [_ | Hge].
    2:{ rewrite length_app, length_frame, length_app in Hge. unfold min_size, AOK_PACKET_SIZE in *. lia. }
    destruct (frame_starts p) as (body & Hbody).
    assert (Hhere : rest src = AOK_PACKET_PREFIX_MARK :: - AOK_ZERO_SPACE :: body ++ concat (map frame ps) ++ l).
    { rewrite Hrest, Hbody. reflexivity. }
    rewrite (seek_prefix_here _ _ _ Hhere).
    rewrite (decode_packet_frame within Hwithin p src _ Hp Hrest).
    assert (Hnext : rest (advance src 132) = concat (map frame ps) ++ l).
    { rewrite rest_advance, Hrest, <- (length_frame p), skipn_app, skipn_all, Nat.sub_diag. reflexivity. }
    rewrite (IH fuel _ (acc ++ [p]) l Hps Hnext Hl) by (cbn [length] in Hfuel; lia).
    rewrite <- app_assoc, advance_advance. cbn [app length]. f_equal. f_equal. lia.
Qed.

End Scan.

(** ** Whole streams *)

Lemma rest_received raw : rest (received raw) = raw.
Proof. reflexivity. Qed.

Lemma size_received raw : size (received raw) = length raw.
Proof. reflexivity. Qed.

Lemma skipn_zero_symbols k l : skipn (2 * k) (zero_symbols k ++ l) = l.
Proof.
  rewrite <- (length_zero_symbols k), skipn_app, skipn_all, Nat.sub_diag. reflexivity.
Qed.

Lemma length_frames ps : length (concat (map frame ps)) = (132 * length ps)%nat.
Proof.
  induction ps as [| p ps IH]; [reflexivity |].
  rewrite concat_map_cons, length_app, length_frame, IH. cbn [length]. lia.
Qed.

Lemma burst_frames d : burst d = concat (map frame (repeat d AOK_REPEATS)).
Proof. unfold burst. now rewrite map_repeat. Qed.

Section Streams.

Variable within : Z -> Z -> bool.
Hypothesis Hwithin : distinguishes within = true.

Lemma decode_loop_preamble k fuel src acc body :
  rest src = zero_symbols k ++ AOK_PACKET_PREFIX_MARK :: - AOK_ZERO_SPACE :: body ->
  (min_size <= size src)%nat ->
  (min_size < 2 + length body)%nat ->
  decode_loop within (S fuel) src acc = decode_loop within (S fuel) (advance src (2 * k)) acc.
Proof.
  intros Hrest Hsize Hbody.
  assert (Hnext : rest (advance src (2 * k)) = AOK_PACKET_PREFIX_MARK :: - AOK_ZERO_SPACE :: body).
  { rewrite rest_advance, Hrest. apply skipn_zero_symbols. }
  assert (Hk : (k < S (size src))%nat).
  { pose proof (length_rest src) as Hlen. rewrite Hrest, length_app, length_zero_symbols in Hlen. lia. }
  cbn [decode_loop].
  rewrite !loop_guard_rest, Hnext, Hrest, size_advance.
  rewrite (seek_prefix_zeros within Hwithin k _ src body Hrest Hsize) by lia.
  rewrite (seek_prefix_here within Hwithin _ _ _ Hnext).
  destruct (Nat.ltb_spec min_size (length (zero_symbols k ++ AOK_PACKET_PREFIX_MARK :: - AOK_ZERO_SPACE :: body))) as [_ | Hge].
  2:{ rewrite length_app in Hge. cbn [length] in Hge. lia. }
  destruct (Nat.ltb_spec min_size (length (AOK_PACKET_PREFIX_MARK :: - AOK_ZERO_SPACE :: body))) as [_ | Hge].
  2:{ cbn [length] in Hge. lia. }
  reflexivity.
Qed.

(** Zero symbols, then frames back to back, then a short tail: the
    decoder returns the packet of the first frame. *)
Lemma decode_run_frames k p ps post :
  Forall valid_packet (p :: ps) ->
  (0 < length post <= min_size)%nat ->
  (min_stream_size <= 2 * k + 132 * length (p :: ps) + length post)%nat ->
  decode_run within (received (zero_symbols k ++ concat (map frame (p :: ps)) ++ post)) =
    Returned (Some p)
      (advance (received (zero_symbols k ++ concat (map frame (p :: ps)) ++ post))
               (2 * k + 132 * length (p :: ps))).
Proof.
  intros Hvalid Hpost Hlong.
  set (raw := zero_symbols k ++ concat (map frame (p :: ps)) ++ post).
  assert (Hlen : length raw = (2 * k + 132 * length (p :: ps) + length post)%nat).
  { unfold raw. rewrite !length_app, length_zero_symbols, length_frames. lia. }
  unfold decode_run. rewrite size_received, Hlen.
  destruct (Nat.ltb_spec (2 * k + 132 * length (p :: ps) + length post) min_stream_size); [lia |].
  destruct (frame_starts p) as (body & Hbody).
  assert (Hraw : raw = zero_symbols k ++ AOK_PACKET_PREFIX_MARK :: - AOK_ZERO_SPACE
                         :: (body ++ concat (map frame ps) ++ post)).
  { unfold raw. rewrite concat_map_cons, Hbody, <- !app_assoc. reflexivity. }
  assert (Hbodylen : (2 + length (body ++ concat (map frame ps) ++ post)
                      = 132 * length (p :: ps) + length post)%nat).
  { apply (f_equal (@length Z)) in Hbody. rewrite length_frame in Hbody. cbn [length] in Hbody.
    rewrite !length_app, length_frames. cbn [length]. lia. }
  change min_stream_size with 824%nat in *. change min_size with 132%nat in *.
  rewrite (decode_loop_preamble k _ _ _ (body ++ concat (map frame ps) ++ post)).
  - rewrite (decode_loop_frames within Hwithin (p :: ps) _ _ [] post Hvalid).
    + rewrite advance_advance. reflexivity.
    + rewrite rest_advance, rest_received. apply skipn_zero_symbols.
    + assumption.
    + lia.
  - rewrite rest_received. exact Hraw.
  - rewrite size_received, Hlen. change min_size with 132%nat. lia.
  - change min_size with 132%nat. cbn [length] in *. lia.
Qed.

End Streams.

(** ** Termination of the scan *)

Section Progress.

Variable within : Z -> Z -> bool.

Lemma expect_item_cursor src mark space ok src' :
  expect_item within src mark space = (ok, src') ->
  rx_data src' = rx_data src
  /\ rx_index src' = (if ok then rx_index src + 2 else rx_index src)%nat
  /\ ok = peek_item within src mark space 0.
Proof.
  unfold expect_item. destruct (peek_item within src mark space 0); cbn [negb];
    intros [= <- <-]; repeat split.
Qed.

Lemma capture_bits_cursor idxs : forall acc src r src',
  capture_bits within idxs acc src = (r, src') ->
  rx_data src' = rx_data src
  /\ (rx_index src <= rx_index src' <= rx_index src + 2 * length idxs)%nat
  /\ (r <> None -> rx_index src' = rx_index src + 2 * length idxs)%nat.
Proof.
  induction idxs as [| i idxs IH]; intros acc src r src' H; cbn [capture_bits] in H.
  - injection H as <- <-. cbn [length]. repeat split; lia.
  - destruct (expect_item within src AOK_ONE_MARK AOK_ONE_SPACE) as [one s1] eqn:E1.
    apply expect_item_cursor in E1 as (D1 & I1 & _).
    destruct one.
    + apply IH in H as (D & I & S). rewrite D, D1. cbn [length].
      repeat split; try lia. intros Hr. specialize (S Hr). lia.
    + destruct (expect_item within s1 AOK_ZERO_MARK AOK_ZERO_SPACE) as [zero s2] eqn:E2.
      apply expect_item_cursor in E2 as (D2 & I2 & _).
      destruct zero.
      * apply IH in H as (D & I & S). rewrite D, D2, D1. cbn [length].
        repeat split; try lia. intros Hr. specialize (S Hr). lia.
      * injection H as <- <-. rewrite D2, D1. cbn [length].
        repeat split; try lia. intros Hr. now elim Hr.
Qed.

(** [decode_packet] only moves the cursor forward, by at most one frame;
    it consumes the prefix whenever one is ahead, and a whole frame
    whenever it returns a packet. *)
Lemma decode_packet_cursor src r src' :
  decode_packet within src = (r, src') ->
  rx_data src' = rx_data src
  /\ (rx_index src <= rx_index src' <= rx_index src + min_size)%nat
  /\ (peek_item within src AOK_PACKET_PREFIX_MARK AOK_ZERO_SPACE 0 = true ->
      rx_index src + 2 <= rx_index src')%nat
  /\ (r <> None -> rx_index src' = rx_index src + min_size)%nat.
Proof.
  unfold decode_packet. change min_size with 132%nat.
  destruct (expect_item within src AOK_PACKET_PREFIX_MARK AOK_ZERO_SPACE) as [prefix s1] eqn:E1.
  apply expect_item_cursor in E1 as (D1 & I1 & P1).
  destruct prefix; cbn [negb].
  2:{ intros [= <- <-]. rewrite D1, I1, <- P1. repeat split; try lia; try discriminate.
      intros Hr. now elim Hr. }
  destruct (capture_bits within (seq 0 AOK_PACKET_SIZE) 0 s1) as [[bits |] s2] eqn:E2;
    apply capture_bits_cursor in E2 as (D2 & I2 & S2); rewrite length_seq in I2, S2;
    change AOK_PACKET_SIZE with 64%nat in I2, S2.
  2:{ intros [= <- <-]. rewrite D2, D1. repeat split; try lia. intros Hr. now elim Hr. }
  specialize (S2 ltac:(discriminate)).
  destruct (expect_item within s2 AOK_ONE_MARK AOK_PACKET_SUFFIX_SPACE) as [suffix s3] eqn:E3.
  apply expect_item_cursor in E3 as (D3 & I3 & _).
  destruct suffix; cbn [negb]; intros [= <- <-]; rewrite D3, D2, D1;
    repeat split; try lia. intros Hr. now elim Hr.
Qed.

(** The inner loop of [decode] ends within [size + 1] rounds. *)
Lemma seek_prefix_ends fuel : forall src,
  (size src - min_size - rx_index src < fuel)%nat ->
  match seek_prefix within fuel src with
  | PrefixFound s =>
      rx_data s = rx_data src /\ (rx_index src <= rx_index s)%nat
      /\ peek_item within s AOK_PACKET_PREFIX_MARK AOK_ZERO_SPACE 0 = true
  | BailedOut s => rx_data s = rx_data src /\ (size src - min_size < rx_index s)%nat
  | SeekFuel => False
  end.
Proof.
  induction fuel as [| fuel IH]; intros src Hfuel; [lia |].
  cbn [seek_prefix].
  destruct (peek_item within src AOK_PACKET_PREFIX_MARK AOK_ZERO_SPACE 0) eqn:Ehere; cbn [negb].
  { repeat split; trivial. }
  set (src1 := if peek_item within src AOK_PACKET_PREFIX_MARK AOK_ZERO_SPACE 1
               then advance src 1 else advance src 2).
  assert (Hd : rx_data src1 = rx_data src) by (unfold src1; destruct (peek_item _ _ _ _ 1); reflexivity).
  assert (Hi : (rx_index src < rx_index src1)%nat).
  { unfold src1; destruct (peek_item _ _ _ _ 1); cbn [advance rx_index]; lia. }
  assert (Hs : size src1 = size src) by (unfold size; now rewrite Hd).
  rewrite Hs. unfold get_index.
  destruct (Nat.ltb_spec (size src - min_size) (rx_index src1)) as [Hbail | Hgo].
  { split; assumption. }
  specialize (IH src1). rewrite Hs in IH. specialize (IH ltac:(lia)).
  destruct (seek_prefix within fuel src1) as [s | s |]; [| | exact IH].
  - destruct IH as (D & I & P). rewrite D, Hd. repeat split; trivial; lia.
  - destruct IH as (D & I). rewrite D, Hd. split; trivial.
Qed.

(** The outer loop of [decode] ends within [size + 1] rounds. *)
Lemma decode_loop_ends fuel : forall src packets,
  (size src - min_size - rx_index src < fuel)%nat ->
  exists result src', decode_loop within fuel src packets = Returned result src'.
Proof.
  induction fuel as [| fuel IH]; intros src packets Hfuel; [lia |].
  cbn [decode_loop]. unfold get_index.
  destruct (Nat.ltb_spec (rx_index src) (size src - min_size)) as [Hgo | Hstop].
  2:{ destruct packets; eauto. }
  pose proof (seek_prefix_ends (S (size src)) src ltac:(lia)) as Hseek.
  destruct (seek_prefix within (S (size src)) src) as [s | s |]; [| eauto | contradiction].
  destruct Hseek as (D & I & P).
  destruct (decode_packet within s) as [packet s2] eqn:E.
  apply decode_packet_cursor in E as (D2 & I2 & P2 & _). specialize (P2 P).
  apply IH. unfold size. rewrite D2, D. fold (size src). lia.
Qed.

Theorem decode_run_returns src :
  exists result src', decode_run within src = Returned result src'.
Proof.
  unfold decode_run. destruct (size src <? min_stream_size)%nat; [eauto |].
  apply decode_loop_ends. lia.
Qed.

End Progress.

(** ** Transmissions *)

Lemma needs_release_false d :
  command d <> COMMAND_UP -> command d <> COMMAND_DOWN -> needs_release d = false.
Proof.
  intros Hup Hdown. unfold needs_release.
  destruct (Z.eqb_spec (command d) COMMAND_UP); [contradiction |].
  destruct (Z.eqb_spec (command d) COMMAND_DOWN); [contradiction |]. reflexivity.
Qed.

Lemma needs_release_true d :
  command d = COMMAND_UP \/ command d = COMMAND_DOWN -> needs_release d = true.
Proof.
  unfold needs_release. intros [-> | ->]; [reflexivity |]. apply orb_true_r.
Qed.

Lemma AOKData_eqb_refl d : AOKData_eqb d d = true.
Proof. unfold AOKData_eqb. now rewrite !Z.eqb_refl. Qed.

Lemma valid_packet_release d : valid_packet d -> valid_packet (set_command d COMMAND_RELEASE).
Proof. intros (Hd & Hc & _). unfold valid_packet, set_command, COMMAND_RELEASE. cbn [device channel command]. lia. Qed.

Lemma Forall_repeat {A} (P : A -> Prop) x n : P x -> Forall P (repeat x n).
Proof. intros Hx. induction n; cbn [repeat]; constructor; assumption. Qed.

Section Transmissions.

Variable within : Z -> Z -> bool.
Hypothesis Hwithin : distinguishes within = true.

(** What [decode] makes of a whole transmission. *)
Lemma decode_run_transmission d :
  valid_packet d ->
  decode_run within (received (transmission d)) =
    Returned (Some d)
      (advance (received (transmission d)) (if needs_release d then 1616 else 824)).
Proof.
  intros Hd. rewrite transmission_eq.
  assert (Hpost : (0 < length (zero_symbols AOK_PRE_POST_ZEROS) <= min_size)%nat).
  { rewrite length_zero_symbols. change min_size with 132%nat. change AOK_PRE_POST_ZEROS with 16%nat. lia. }
  destruct (needs_release d).
  - rewrite !burst_frames, (app_assoc (concat _) (concat _)), <- concat_app, <- map_app.
    change (repeat d AOK_REPEATS) with (d :: repeat d 5).
    rewrite <- app_comm_cons.
    rewrite (decode_run_frames within Hwithin).
    + cbn [length]. rewrite length_app, !repeat_length. reflexivity.
    + constructor; [assumption |]. apply Forall_app. split; apply Forall_repeat.
      * assumption.
      * now apply valid_packet_release.
    + assumption.
    + cbn [length]. rewrite length_app, !repeat_length.
      change min_stream_size with 824%nat. change AOK_PRE_POST_ZEROS with 16%nat. change AOK_REPEATS with 6%nat. lia.
  - rewrite burst_frames. cbn [app].
    change (repeat d AOK_REPEATS) with (d :: repeat d 5).
    rewrite (decode_run_frames within Hwithin).
    + cbn [length]. rewrite !repeat_length. reflexivity.
    + constructor; [assumption |]. now apply Forall_repeat.
    + assumption.
    + cbn [length]. rewrite !repeat_length.
      change min_stream_size with 824%nat. change AOK_PRE_POST_ZEROS with 16%nat. lia.
Qed.

End Transmissions.

(** * The claims *)

(** C1 (the code departs from the claim).  The stream [frame_then_noise]
    passes the minimum-length check and starts with a frame that
    [decode_packet] accepts; the scan then runs through the trailing pulse
    pairs into the early [return {}] of lines 164-167, and [decode] returns
    the empty result although a frame was decoded. *)
Theorem decode_discards_frame_before_noise :
  length frame_then_noise = 824%nat
  /\ decode_packet (within_percent 25) (received frame_then_noise)
     = (Some stop_packet, advance (received frame_then_noise) 132)
  /\ decode_run (within_percent 25) (received frame_then_noise)
     = Returned None (advance (received frame_then_noise) 694)
  /\ decode (within_percent 25) (received frame_then_noise) = None.
Proof. repeat split; vm_compute; reflexivity. Qed.

(** The same on a whole transmission: received as sent it decodes, followed
    by 51 more idle pulse pairs all of its frames are dropped. *)
Lemma decode_discards_transmission_before_noise :
  decode_run (within_percent 25) (received (transmission stop_packet))
    = Returned (Some stop_packet) (advance (received (transmission stop_packet)) 824)
  /\ decode_run (within_percent 25) (received transmission_then_noise)
     = Returned None (advance (received transmission_then_noise) 828).
Proof. split; vm_compute; reflexivity. Qed.

(** C2.  For device 0x010203, channel 0x0100 and command 0x23 the checksum
    is 0x2A, the frame value is 0xA30102030100232A, and decoding that value
    (or the pulses of that frame) gives the three fields back. *)
Theorem stop_packet_scenario :
  checksum stop_packet = 0x2A
  /\ packet_bits stop_packet = 0xA30102030100232A
  /\ decode_bits 0xA30102030100232A
     = Some {| device := 0x010203; channel := 0x0100; command := 0x23 |}
  /\ decode_packet (within_percent 25) (received (frame stop_packet))
     = (Some {| device := 0x010203; channel := 0x0100; command := 0x23 |},
        advance (received (frame stop_packet)) 132).
Proof. repeat split; vm_compute; reflexivity. Qed.

(** C3.  Round trip: for a packet with a 24-bit device whose command is
    neither UP nor DOWN, decoding the pulses that [encode] produces gives a
    packet equal to it under [operator==], for every tolerance that tells the
    symbols of the protocol apart. *)
Theorem decode_encode_round_trip (within : Z -> Z -> bool) (d : AOKData) :
  distinguishes within = true ->
  valid_packet d ->
  command d <> COMMAND_UP -> command d <> COMMAND_DOWN ->
  exists q,
    decode within (received (tx_data (encode empty_tx d))) = Some q
    /\ AOKData_eqb q d = true.
Proof.
  intros Hwithin Hd Hup Hdown. exists d. split; [| apply AOKData_eqb_refl].
  fold (transmission d). unfold decode.
  now rewrite (decode_run_transmission within Hwithin d Hd).
Qed.

Lemma decode_encode_round_trip_witness :
  exists q,
    decode (within_percent 25) (received (tx_data (encode empty_tx stop_packet))) = Some q
    /\ AOKData_eqb q stop_packet = true.
Proof.
  apply (decode_encode_round_trip (within_percent 25) stop_packet).
  - reflexivity.
  - unfold valid_packet, stop_packet, CHANNEL_1, COMMAND_STOP; cbn [device channel command]; lia.
  - discriminate.
  - discriminate.
Defined.

(** C4 (the code departs from the claim).  [packet_bits] does not mask the
    device: with bit 26 set, the bit lands in the header byte, which becomes
    0xA7; the frame differs from the frame of the masked device and is one
    that [decode_packet] rejects. *)
Theorem packet_bits_wide_device :
  packet_bits wide_device_packet = 0xA700000001002324
  /\ packet_bits (mkAOKData (Z.land (device wide_device_packet) 0xffffff) CHANNEL_1 COMMAND_STOP)
     = 0xA300000001002324
  /\ u8 (Z.shiftr (packet_bits wide_device_packet) 56) = 0xA7
  /\ decode_bits (packet_bits wide_device_packet) = None
  /\ decode (within_percent 25) (received (transmission wide_device_packet)) = None.
Proof. repeat split; vm_compute; reflexivity. Qed.

(** C5.  For UP and DOWN, [encode] emits the frame of the packet six times
    and then, six times, the frame of the packet with its command replaced
    by RELEASE (device and channel kept); for STOP and PROGRAM the first
    burst is followed by the postamble at once. *)
Theorem encode_release_burst (dst : RemoteTransmitData) (d : AOKData) :
  (command d = COMMAND_UP \/ command d = COMMAND_DOWN ->
   tx_data (encode dst d) =
     tx_data dst ++ zero_symbols AOK_PRE_POST_ZEROS
       ++ concat (repeat (frame d) 6)
       ++ concat (repeat (frame (set_command d COMMAND_RELEASE)) 6)
       ++ zero_symbols AOK_PRE_POST_ZEROS)
  /\ (command d = COMMAND_STOP \/ command d = COMMAND_PROGRAM ->
      tx_data (encode dst d) =
        tx_data dst ++ zero_symbols AOK_PRE_POST_ZEROS
          ++ concat (repeat (frame d) 6)
          ++ zero_symbols AOK_PRE_POST_ZEROS)
  /\ command (set_command d COMMAND_RELEASE) = COMMAND_RELEASE
  /\ device (set_command d COMMAND_RELEASE) = device d
  /\ channel (set_command d COMMAND_RELEASE) = channel d.
Proof.
  repeat split.
  - intros Hcmd. rewrite tx_data_encode, (needs_release_true d Hcmd). reflexivity.
  - intros Hcmd. rewrite tx_data_encode.
    assert (Hrel : needs_release d = false)
      by (destruct Hcmd as [H | H]; unfold needs_release; rewrite H; reflexivity).
    rewrite Hrel. reflexivity.
Qed.

Lemma encode_release_burst_witness :
  tx_data (encode empty_tx up_packet) =
    tx_data empty_tx ++ zero_symbols AOK_PRE_POST_ZEROS
      ++ concat (repeat (frame up_packet) 6)
      ++ concat (repeat (frame (set_command up_packet COMMAND_RELEASE)) 6)
      ++ zero_symbols AOK_PRE_POST_ZEROS.
Proof.
  apply (proj1 (encode_release_burst empty_tx up_packet)). left. reflexivity.
Defined.

(** C6.  On the assembled 64-bit value, [decode_packet] returns a packet
    exactly when the top byte is 0xA3 and the checksum of the extracted
    fields equals the low byte, and then the packet is the extracted fields;
    otherwise the result is empty.  The value is the one read from the
    pulses, and in [decode] an empty result leaves the collected packets as
    they are and the loop goes on from the cursor [decode_packet] left. *)
Theorem decode_packet_header_and_checksum :
  (forall ulbits d,
      decode_bits ulbits = Some d <->
      u8 (Z.shiftr ulbits 56) = AOK_HEADER
      /\ checksum (extracted ulbits) = u8 (Z.land ulbits 0xff)
      /\ d = extracted ulbits)
  /\ (forall ulbits,
         u8 (Z.shiftr ulbits 56) <> AOK_HEADER
         \/ checksum (extracted ulbits) <> u8 (Z.land ulbits 0xff) ->
         decode_bits ulbits = None)
  /\ (forall within src s1 bits s2 s3,
         expect_item within src AOK_PACKET_PREFIX_MARK AOK_ZERO_SPACE = (true, s1) ->
         capture_bits within (seq 0 AOK_PACKET_SIZE) 0 s1 = (Some bits, s2) ->
         expect_item within s2 AOK_ONE_MARK AOK_PACKET_SUFFIX_SPACE = (true, s3) ->
         decode_packet within src = (decode_bits (u64 bits), s3))
  /\ (forall within fuel src s s' packets,
         (get_index src <? size src - min_size)%nat = true ->
         seek_prefix within (S (size src)) src = PrefixFound s ->
         decode_packet within s = (None, s') ->
         decode_loop within (S fuel) src packets = decode_loop within fuel s' packets).
Proof.
  assert (Hiff : forall ulbits d,
             decode_bits ulbits = Some d <->
             u8 (Z.shiftr ulbits 56) = AOK_HEADER
             /\ checksum (extracted ulbits) = u8 (Z.land ulbits 0xff)
             /\ d = extracted ulbits).
  { intros ulbits d. unfold decode_bits. fold (extracted ulbits).
    destruct (Z.eqb_spec (u8 (Z.shiftr ulbits 56)) AOK_HEADER) as [Hh | Hh]; cbn [negb].
    - destruct (Z.eqb_spec (checksum (extracted ulbits)) (u8 (Z.land ulbits 0xff))) as [Hc | Hc];
        cbn [negb].
      + split; [intros [= <-]; auto | intros (_ & _ & ->); reflexivity].
      + split; [discriminate | intros (_ & Hc' & _); contradiction].
    - split; [discriminate | intros (Hh' & _); contradiction]. }
  split; [exact Hiff |]. split; [| split].
  - intros ulbits Hbad. destruct (decode_bits ulbits) as [d |] eqn:E; [| reflexivity].
    apply Hiff in E as (Hh & Hc & _). destruct Hbad; contradiction.
  - intros within src s1 bits s2 s3 E1 E2 E3. unfold decode_packet.
    rewrite E1. cbn [negb]. rewrite E2, E3. reflexivity.
  - intros within fuel src s s' packets Hgo Hseek Hpacket.
    cbn [decode_loop]. rewrite Hgo, Hseek, Hpacket. reflexivity.
Qed.

Lemma decode_packet_header_and_checksum_witness : decode_bits 0 = None.
Proof.
  apply (proj1 (proj2 decode_packet_header_and_checksum) 0).
  left. vm_compute. discriminate.
Defined.

(** C7 (the code departs from the claim).  In [misaligned_frame_then_noise]
    a valid frame starts one pulse after the cursor; the prefix does not
    match at the cursor and matches one pulse ahead, the scan advances by
    one pulse and [decode_packet] reads the packet there.  The scan then
    runs through the trailing pulse pairs into the early [return {}] of
    lines 164-167 and [decode] returns the empty result, not the packet. *)
Theorem decode_realigns_then_discards :
  length misaligned_frame_then_noise = 825%nat
  /\ peek_item (within_percent 25) (received misaligned_frame_then_noise)
       AOK_PACKET_PREFIX_MARK AOK_ZERO_SPACE 0 = false
  /\ peek_item (within_percent 25) (received misaligned_frame_then_noise)
       AOK_PACKET_PREFIX_MARK AOK_ZERO_SPACE 1 = true
  /\ seek_prefix (within_percent 25) 2 (received misaligned_frame_then_noise)
     = PrefixFound (advance (received misaligned_frame_then_noise) 1)
  /\ decode_packet (within_percent 25) (advance (received misaligned_frame_then_noise) 1)
     = (Some stop_packet, advance (received misaligned_frame_then_noise) 133)
  /\ decode_run (within_percent 25) (received misaligned_frame_then_noise)
     = Returned None (advance (received misaligned_frame_then_noise) 695).
Proof. repeat split; vm_compute; reflexivity. Qed.

(** C8.  A stream shorter than the minimum is answered with the empty
    result at once: the cursor has not moved, and neither the pulses nor the
    tolerance of the transport have a say in the outcome. *)
Theorem decode_short_stream (within : Z -> Z -> bool) (src : RemoteReceiveData) :
  (size src < min_stream_size)%nat ->
  decode_run within src = Returned None src /\ decode within src = None.
Proof.
  intros Hshort. unfold decode, decode_run.
  destruct (Nat.ltb_spec (size src) min_stream_size); [split; reflexivity | lia].
Qed.

Lemma decode_short_stream_witness :
  decode_run (within_percent 25) (received (zero_symbols 411))
    = Returned None (received (zero_symbols 411))
  /\ decode (within_percent 25) (received (zero_symbols 411)) = None.
Proof.
  apply (decode_short_stream (within_percent 25) (received (zero_symbols 411))).
  vm_compute. lia.
Defined.

(** C9.  For a packet with a 24-bit device whose command is UP or DOWN,
    decoding the pulses that [encode] produces gives the packet itself, with
    the original command, and not the RELEASE packet of the second burst. *)
Theorem decode_encode_up_down (within : Z -> Z -> bool) (d : AOKData) :
  distinguishes within = true ->
  valid_packet d ->
  command d = COMMAND_UP \/ command d = COMMAND_DOWN ->
  exists q,
    decode within (received (tx_data (encode empty_tx d))) = Some q
    /\ AOKData_eqb q d = true
    /\ AOKData_eqb q (set_command d COMMAND_RELEASE) = false.
Proof.
  intros Hwithin Hd Hcmd. exists d. repeat split.
  - fold (transmission d). unfold decode.
    now rewrite (decode_run_transmission within Hwithin d Hd).
  - apply AOKData_eqb_refl.
  - unfold AOKData_eqb, set_command. cbn [device channel command].
    destruct Hcmd as [-> | ->]; now rewrite andb_false_r.
Qed.

Lemma decode_encode_up_down_witness :
  exists q,
    decode (within_percent 25) (received (tx_data (encode empty_tx up_packet))) = Some q
    /\ AOKData_eqb q up_packet = true
    /\ AOKData_eqb q (set_command up_packet COMMAND_RELEASE) = false.
Proof.
  apply (decode_encode_up_down (within_percent 25) up_packet).
  - reflexivity.
  - unfold valid_packet, up_packet, CHANNEL_1, COMMAND_UP; cbn [device channel command]; lia.
  - left. reflexivity.
Defined.

(** C10.  The threshold of [decode] is 824 raw durations, 132 per frame
    times 6 repeats plus 32: below it the result is empty at once, from it on
    the loop is entered.  The 32 are half of the 64 raw durations of a
    16-pair preamble and a 16-pair postamble, and every transmission of
    [encode] is longer than the threshold. *)
Theorem decode_threshold :
  min_stream_size = 824%nat
  /\ min_stream_size = (132 * AOK_REPEATS + 32)%nat
  /\ (forall within src,
         (size src < 824)%nat -> decode_run within src = Returned None src)
  /\ (forall within raw,
         (824 <= length raw)%nat ->
         decode_run within (received raw) = decode_loop within (S (length raw)) (received raw) []
         /\ (get_index (received raw) <? size (received raw) - min_size)%nat = true)
  /\ (2 * (AOK_PRE_POST_ZEROS + AOK_PRE_POST_ZEROS) = 64)%nat
  /\ (AOK_PRE_POST_ZEROS * 2 = 64 / 2)%nat
  /\ (forall d, min_stream_size < length (tx_data (encode empty_tx d)))%nat.
Proof.
  split; [reflexivity |]. split; [reflexivity |]. split; [| split; [| split; [| split]]].
  - intros within src Hshort. unfold decode_run.
    change min_stream_size with 824%nat.
    destruct (Nat.ltb_spec (size src) 824); [reflexivity | lia].
  - intros within raw Hlong. unfold decode_run. rewrite size_received.
    change min_stream_size with 824%nat. change min_size with 132%nat.
    destruct (Nat.ltb_spec (length raw) 824); [lia |]. split; [reflexivity |].
    unfold get_index. cbn [received rx_index]. apply Nat.ltb_lt. lia.
  - reflexivity.
  - reflexivity.
  - intros d. fold (transmission d). rewrite length_transmission.
    change min_stream_size with 824%nat. destruct (needs_release d); lia.
Qed.

Lemma decode_threshold_witness :
  decode_run (within_percent 25) (received []) = Returned None (received []).
Proof.
  apply (proj1 (proj2 (proj2 decode_threshold)) (within_percent 25) (received [])).
  vm_compute. lia.
Defined.

(** * Further properties: groundwork *)

(** ** Frame values *)

(** Or-ing a byte into the header constant gives a byte. *)
Lemma header_lor_range hi : 0 <= hi < 2 ^ 8 -> 0 <= Z.lor AOK_HEADER hi < 2 ^ 8.
Proof.
  intros Hhi. split; [apply Z.lor_nonneg; unfold AOK_HEADER; lia |].
  destruct (Z.eq_dec (Z.lor AOK_HEADER hi) 0) as [-> | Hnz]; [lia |].
  apply Z.log2_lt_pow2; [pose proof (Z.lor_nonneg AOK_HEADER hi); unfold AOK_HEADER in *; lia |].
  rewrite Z.log2_lor by (unfold AOK_HEADER; lia).
  apply Z.max_lub_lt; [reflexivity |].
  destruct (Z.eq_dec hi 0) as [-> | Hh]; [reflexivity |].
  apply Z.log2_lt_pow2; lia.
Qed.

(** Frame value of a packet whose device may use all 32 bits. *)
Lemma packet_bits_sum_wide d :
  in_range d ->
  packet_bits d =
    Z.lor AOK_HEADER (device d / 2 ^ 24) * 2 ^ 56 + (device d mod 2 ^ 24) * 2 ^ 32
    + channel d * 2 ^ 16 + command d * 2 ^ 8 + checksum d.
Proof.
  intros (Hd & Hc & Hk).
  pose proof (checksum_range d) as Hs.
  pose proof (Z.div_mod (device d) (2 ^ 24) ltac:(lia)) as Hdm.
  pose proof (Z.mod_pos_bound (device d) (2 ^ 24) ltac:(lia)) as Hlo.
  assert (Hhi : 0 <= device d / 2 ^ 24 < 2 ^ 8).
  { split; [apply Z.div_pos; lia | apply Z.div_lt_upper_bound; lia]. }
  set (hi := device d / 2 ^ 24) in *. set (lo := device d mod 2 ^ 24) in *.
  pose proof (header_lor_range hi Hhi) as Hlor.
  unfold packet_bits, u64.
  rewrite !Z.shiftl_mul_pow2 by lia.
  rewrite Z.lor_0_l.
  change (AOK_HEADER mod 2 ^ 64) with AOK_HEADER.
  rewrite !(Z.mod_small (device d)), !(Z.mod_small (channel d)),
          !(Z.mod_small (command d)), !(Z.mod_small (checksum d)) by lia.
  rewrite (Z.mod_small (AOK_HEADER * 2 ^ 56)) by (unfold AOK_HEADER; lia).
  rewrite !Z.mod_small by lia.
  replace (device d * 2 ^ 32) with (hi * 2 ^ 56 + lo * 2 ^ 32) by lia.
  rewrite <- (lor_disjoint_add hi (lo * 2 ^ 32) 56) by lia.
  rewrite (Z.lor_assoc (AOK_HEADER * 2 ^ 56)).
  rewrite <- !Z.shiftl_mul_pow2 by lia.
  rewrite <- Z.shiftl_lor.
  rewrite !Z.shiftl_mul_pow2 by lia.
  rewrite <- !Z.add_assoc.
  rewrite <- (lor_disjoint_add (Z.lor AOK_HEADER hi) _ 56) by lia.
  rewrite <- !Z.lor_assoc. f_equal.
  rewrite <- (lor_disjoint_add lo _ 32) by lia. f_equal.
  rewrite <- (lor_disjoint_add (channel d) _ 16) by lia. f_equal.
  rewrite <- (lor_disjoint_add (command d) _ 8) by lia. reflexivity.
Qed.

(** [decode_bits] on a value given by its five fields. *)
Lemma decode_bits_fields h lo ch cmd ck :
  0 <= h < 2 ^ 8 -> 0 <= lo < 2 ^ 24 -> 0 <= ch < 2 ^ 16 -> 0 <= cmd < 2 ^ 8 -> 0 <= ck < 2 ^ 8 ->
  decode_bits (h * 2 ^ 56 + lo * 2 ^ 32 + ch * 2 ^ 16 + cmd * 2 ^ 8 + ck) =
    if negb (h =? AOK_HEADER) then None
    else if negb (checksum (mkAOKData lo ch cmd) =? ck) then None
         else Some (mkAOKData lo ch cmd).
Proof.
  intros Hh Hlo Hch Hcmd Hck.
  unfold decode_bits, u8, u16, u32.
  change 0xffffff with (Z.ones 24). change 0xffff with (Z.ones 16). change 0xff with (Z.ones 8).
  rewrite !Z.land_ones, !Z.shiftr_div_pow2 by lia.
  set (v := h * 2 ^ 56 + lo * 2 ^ 32 + ch * 2 ^ 16 + cmd * 2 ^ 8 + ck).
  assert (H56 : (v / 2 ^ 56) mod 2 ^ 8 = h) by (subst v; Z.div_mod_to_equations; lia).
  assert (H32 : ((v / 2 ^ 32) mod 2 ^ 24) mod 2 ^ 32 = lo) by (subst v; Z.div_mod_to_equations; lia).
  assert (H16 : ((v / 2 ^ 16) mod 2 ^ 16) mod 2 ^ 16 = ch) by (subst v; Z.div_mod_to_equations; lia).
  assert (H8 : ((v / 2 ^ 8) mod 2 ^ 8) mod 2 ^ 8 = cmd) by (subst v; Z.div_mod_to_equations; lia).
  assert (H0 : (v mod 2 ^ 8) mod 2 ^ 8 = ck) by (subst v; Z.div_mod_to_equations; lia).
  rewrite H56, H32, H16, H8, H0. reflexivity.
Qed.

(** Every 64-bit value splits into the five fields of the wire format. *)
Lemma frame_fields v :
  0 <= v < 2 ^ 64 ->
  exists h lo ch cmd ck,
    v = h * 2 ^ 56 + lo * 2 ^ 32 + ch * 2 ^ 16 + cmd * 2 ^ 8 + ck
    /\ 0 <= h < 2 ^ 8 /\ 0 <= lo < 2 ^ 24 /\ 0 <= ch < 2 ^ 16 /\ 0 <= cmd < 2 ^ 8 /\ 0 <= ck < 2 ^ 8.
Proof.
  intros Hv.
  exists (v / 2 ^ 56), ((v / 2 ^ 32) mod 2 ^ 24), ((v / 2 ^ 16) mod 2 ^ 16),
         ((v / 2 ^ 8) mod 2 ^ 8), (v mod 2 ^ 8).
  Z.div_mod_to_equations. lia.
Qed.

Lemma decode_bits_is_encoding v d :
  0 <= v < 2 ^ 64 ->
  decode_bits v = Some d ->
  valid_packet d /\ packet_bits d = v.
Proof.
  intros Hv Hdec.
  destruct (frame_fields v Hv) as (h & lo & ch & cmd & ck & -> & Hh & Hlo & Hch & Hcmd & Hck).
  rewrite decode_bits_fields in Hdec by assumption.
  destruct (Z.eqb_spec h AOK_HEADER) as [-> | _]; [| discriminate].
  destruct (Z.eqb_spec (checksum (mkAOKData lo ch cmd)) ck) as [Eck | _]; [| discriminate].
  injection Hdec as <-.
  split; [repeat split; cbn [device channel command]; lia |].
  rewrite packet_bits_sum by (cbn [device channel command]; lia). rewrite Eck. reflexivity.
Qed.

Lemma byte_at_low_device x k :
  0 <= k < 3 -> byte_at (x mod 2 ^ 24) k = byte_at x k.
Proof.
  intros Hk. rewrite !byte_at_spec by lia.
  assert (Hcase : k = 0 \/ k = 1 \/ k = 2) by lia.
  destruct Hcase as [-> | [-> | ->]]; cbn [Z.mul]; Z.div_mod_to_equations; lia.
Qed.

Lemma decode_bits_wide_device d :
  in_range d ->
  decode_bits (packet_bits d) =
    if Z.lor AOK_HEADER (Z.shiftr (device d) 24) =? AOK_HEADER
    then Some (mkAOKData (Z.land (device d) 0xffffff) (channel d) (command d))
    else None.
Proof.
  intros Hd. pose proof Hd as (Hdev & Hc & Hk).
  rewrite packet_bits_sum_wide by assumption.
  change 0xffffff with (Z.ones 24). rewrite Z.land_ones, Z.shiftr_div_pow2 by lia.
  pose proof (Z.mod_pos_bound (device d) (2 ^ 24) ltac:(lia)) as Hlo.
  assert (Hhi : 0 <= device d / 2 ^ 24 < 2 ^ 8).
  { split; [apply Z.div_pos; lia | apply Z.div_lt_upper_bound; lia]. }
  pose proof (header_lor_range _ Hhi) as Hlor.
  assert (Hck : checksum d = checksum (mkAOKData (device d mod 2 ^ 24) (channel d) (command d))).
  { unfold checksum. cbn [device channel command].
    now rewrite !(byte_at_low_device (device d)) by lia. }
  rewrite decode_bits_fields by (assumption || apply checksum_range).
  rewrite Hck, Z.eqb_refl. cbn [negb].
  destruct (Z.lor AOK_HEADER (device d / 2 ^ 24) =? AOK_HEADER); reflexivity.
Qed.

(** ** Long tails *)

Lemma zero_symbols_app a b : zero_symbols (a + b) = zero_symbols a ++ zero_symbols b.
Proof. unfold zero_symbols. now rewrite repeat_app, concat_app. Qed.

Section Tails.

Variable within : Z -> Z -> bool.
Hypothesis Hwithin : distinguishes within = true.

(** Over zero symbols alone the inner loop walks pair by pair until fewer
    than [min_size] raw durations are left, and bails out. *)
Lemma seek_prefix_zeros_bail n : forall fuel src,
  rest src = zero_symbols n ->
  (min_size <= size src)%nat ->
  (1 <= n)%nat ->
  (Nat.max 1 (n - 65) < fuel)%nat ->
  seek_prefix within fuel src = BailedOut (advance src (2 * Nat.max 1 (n - 65))).
Proof.
  destruct (distinguishes_spec _ Hwithin) as (_ & _ & _ & _ & _ & Hnot).
  induction n as [| n IH]; intros fuel src Hrest Hsize Hn Hfuel; [lia |].
  destruct fuel as [| fuel]; [lia |].
  rewrite zero_symbols_S in Hrest.
  cbn [seek_prefix].
  rewrite (peek_item_here _ _ _ _ _ _ _ Hrest), Hnot. cbn [negb].
  rewrite (peek_item_ahead_space _ _ _ _ _ _ _ Hrest) by (unfold AOK_ZERO_SPACE; lia).
  pose proof (rest_advance_2 _ _ _ _ Hrest) as Hnext.
  rewrite bail_guard_rest by assumption.
  rewrite Hnext, length_zero_symbols. change min_size with 132%nat in *.
  destruct (Nat.ltb_spec (2 * n) 132) as [Hlt | Hge].
  - do 2 f_equal. lia.
  - rewrite (IH fuel _ Hnext) by (rewrite ?size_advance; lia).
    rewrite advance_advance. do 2 f_equal. lia.
Qed.

(** Frames back to back are decoded one per round of the outer loop, as
    long as something follows the last of them. *)
Lemma decode_loop_frames_then ps : forall fuel src acc l,
  Forall valid_packet ps ->
  rest src = concat (map frame ps) ++ l ->
  (0 < length l)%nat ->
  decode_loop within (length ps + fuel) src acc =
    decode_loop within fuel (advance src (132 * length ps)) (acc ++ ps).
Proof.
  induction ps as [| p ps IH]; intros fuel src acc l Hvalid Hrest Hl.
  - cbn [length Nat.add Nat.mul]. now rewrite app_nil_r, advance_0.
  - inversion Hvalid as [| ? ? Hp Hps]; subst.
    rewrite concat_map_cons, <- app_assoc in Hrest.
    cbn [length Nat.add decode_loop].
    rewrite loop_guard_rest, Hrest.
    destruct (Nat.ltb_spec min_size (length (frame p ++ concat (map frame ps) ++ l))) as [_ | Hge].
    2:{ rewrite length_app, length_frame, length_app in Hge. change min_size with 132%nat in Hge. lia. }
    destruct (frame_starts p) as (body & Hbody).
    assert (Hhere : rest src = AOK_PACKET_PREFIX_MARK :: - AOK_ZERO_SPACE :: body ++ concat (map frame ps) ++ l).
    { rewrite Hrest, Hbody. reflexivity. }
    rewrite (seek_prefix_here within Hwithin _ _ _ Hhere).
    rewrite (decode_packet_frame within Hwithin p src _ Hp Hrest).
    assert (Hnext : rest (advance src 132) = concat (map frame ps) ++ l).
    { rewrite rest_advance, Hrest, <- (length_frame p), skipn_app, skipn_all, Nat.sub_diag. reflexivity. }
    rewrite (IH fuel _ (acc ++ [p]) l Hps Hnext Hl).
    rewrite <- app_assoc, advance_advance. cbn [app]. do 2 f_equal. lia.
Qed.

(** Zero symbols, frames, and then a long run of zero symbols: the scan
    bails out in the tail and the frames it decoded are dropped. *)
Lemma decode_run_frames_long_tail k p ps n :
  Forall valid_packet (p :: ps) ->
  (67 <= n)%nat ->
  (min_stream_size <= 2 * k + 132 * length (p :: ps) + 2 * n)%nat ->
  decode_run within (received (zero_symbols k ++ concat (map frame (p :: ps)) ++ zero_symbols n)) =
    Returned None
      (advance (received (zero_symbols k ++ concat (map frame (p :: ps)) ++ zero_symbols n))
               (2 * k + 132 * length (p :: ps) + 2 * (n - 65))).
Proof.
  intros Hvalid Hn Hlong. change min_stream_size with 824%nat in Hlong.
  set (raw := zero_symbols k ++ concat (map frame (p :: ps)) ++ zero_symbols n).
  assert (Hlen : length raw = (2 * k + 132 * length (p :: ps) + 2 * n)%nat).
  { unfold raw. rewrite !length_app, !length_zero_symbols, length_frames. lia. }
  unfold decode_run. rewrite size_received, Hlen.
  change min_stream_size with 824%nat.
  destruct (Nat.ltb_spec (2 * k + 132 * length (p :: ps) + 2 * n) 824) as [Hlt | _].
  { lia. }
  destruct (frame_starts p) as (body & Hbody).
  assert (Hraw : raw = zero_symbols k ++ AOK_PACKET_PREFIX_MARK :: - AOK_ZERO_SPACE
                         :: (body ++ concat (map frame ps) ++ zero_symbols n)).
  { unfold raw. rewrite concat_map_cons, Hbody, <- !app_assoc. reflexivity. }
  assert (Hbodylen : (2 + length (body ++ concat (map frame ps) ++ zero_symbols n)
                      = 132 * length (p :: ps) + 2 * n)%nat).
  { apply (f_equal (@length Z)) in Hbody. rewrite length_frame in Hbody. cbn [length] in Hbody.
    rewrite !length_app, length_frames, length_zero_symbols. cbn [length]. lia. }
  rewrite (decode_loop_preamble within Hwithin k _ _ _ (body ++ concat (map frame ps) ++ zero_symbols n)).
  2:{ rewrite rest_received. exact Hraw. }
  2:{ rewrite size_received, Hlen. change min_size with 132%nat. lia. }
  2:{ change min_size with 132%nat. cbn [length] in *. lia. }
  assert (Hfuel : exists fuel, S (2 * k + 132 * length (p :: ps) + 2 * n) = (length (p :: ps) + S fuel)%nat).
  { exists (2 * k + 131 * length (p :: ps) + 2 * n)%nat. lia. }
  destruct Hfuel as (fuel & ->).
  rewrite (decode_loop_frames_then (p :: ps) _ _ [] (zero_symbols n) Hvalid).
  2:{ rewrite rest_advance, rest_received. apply skipn_zero_symbols. }
  2:{ rewrite length_zero_symbols. lia. }
  set (src := advance (advance (received raw) (2 * k)) (132 * length (p :: ps))).
  assert (Hrest : rest src = zero_symbols n).
  { unfold src. rewrite advance_advance, rest_advance, rest_received. unfold raw.
    rewrite app_assoc, <- (length_frames (p :: ps)), <- (length_zero_symbols k), <- length_app.
    now rewrite skipn_app, skipn_all, Nat.sub_diag. }
  assert (Hsize : size src = length raw) by reflexivity.
  cbn [decode_loop].
  rewrite loop_guard_rest, Hrest, length_zero_symbols. change min_size with 132%nat.
  destruct (Nat.ltb_spec 132 (2 * n)); [| lia].
  rewrite (seek_prefix_zeros_bail n _ src Hrest).
  - unfold src. rewrite !advance_advance. do 2 f_equal. lia.
  - rewrite Hsize, Hlen. change min_size with 132%nat. lia.
  - lia.
  - rewrite Hsize, Hlen. lia.
Qed.

End Tails.

Lemma transmission_frames d :
  transmission d =
    zero_symbols AOK_PRE_POST_ZEROS
      ++ concat (map frame (d :: repeat d 5
                              ++ (if needs_release d
                                  then repeat (set_command d COMMAND_RELEASE) AOK_REPEATS
                                  else [])))
      ++ zero_symbols AOK_PRE_POST_ZEROS.
Proof.
  rewrite transmission_eq, app_comm_cons.
  change (d :: repeat d 5) with (repeat d AOK_REPEATS).
  rewrite map_app, concat_app, <- burst_frames, <- app_assoc.
  destruct (needs_release d); [now rewrite burst_frames | reflexivity].
Qed.

Lemma transmission_frames_valid d :
  valid_packet d ->
  Forall valid_packet (d :: repeat d 5
                         ++ (if needs_release d
                             then repeat (set_command d COMMAND_RELEASE) AOK_REPEATS
                             else [])).
Proof.
  intros Hd. constructor; [assumption |]. apply Forall_app. split.
  - now apply Forall_repeat.
  - destruct (needs_release d); [| constructor].
    apply Forall_repeat. now apply valid_packet_release.
Qed.

Lemma transmission_frames_count d :
  length (d :: repeat d 5
            ++ (if needs_release d
                then repeat (set_command d COMMAND_RELEASE) AOK_REPEATS
                else []))
  = if needs_release d then 12%nat else 6%nat.
Proof.
  cbn [length]. rewrite length_app, repeat_length.
  destruct (needs_release d); [rewrite repeat_length |]; reflexivity.
Qed.

Section Idle.

Variable within : Z -> Z -> bool.
Hypothesis Hwithin : distinguishes within = true.

Lemma decode_transmission_idle_tail d k :
  valid_packet d ->
  decode within (received (transmission d ++ zero_symbols k)) =
    if (k <=? 50)%nat then Some d else None.
Proof.
  intros Hd. pose proof (transmission_frames_valid d Hd) as Hvalid.
  pose proof (transmission_frames_count d) as Hcount.
  rewrite transmission_frames, <- !app_assoc, <- zero_symbols_app.
  unfold decode. change AOK_PRE_POST_ZEROS with 16%nat.
  destruct (Nat.leb_spec k 50) as [Hshort | Hlong].
  - rewrite (decode_run_frames within Hwithin); trivial.
    + rewrite length_zero_symbols. change min_size with 132%nat. lia.
    + rewrite length_zero_symbols, Hcount. change min_stream_size with 824%nat.
      destruct (needs_release d); lia.
  - rewrite (decode_run_frames_long_tail within Hwithin); trivial.
    + lia.
    + rewrite Hcount. change min_stream_size with 824%nat. destruct (needs_release d); lia.
Qed.

End Idle.

(** ** Misaligned streams *)

Section Misaligned.

Variable within : Z -> Z -> bool.
Hypothesis Hwithin : distinguishes within = true.

(** One raw duration too many ahead of the zero symbols: the inner loop
    walks the misaligned pairs and realigns by one pulse at the prefix. *)
Lemma seek_prefix_misaligned k : forall fuel src s0 body,
  rest src = s0 :: zero_symbols k ++ AOK_PACKET_PREFIX_MARK :: - AOK_ZERO_SPACE :: body ->
  (min_size <= size src)%nat ->
  (min_size <= 2 + length body)%nat ->
  (k + 1 < fuel)%nat ->
  seek_prefix within fuel src = PrefixFound (advance src (2 * k + 1)).
Proof.
  destruct (distinguishes_spec _ Hwithin) as (Hprefix & _ & _ & _ & _ & Hnot).
  induction k as [| k IH]; intros fuel src s0 body Hrest Hsize Hbody Hfuel.
  - destruct fuel as [| fuel]; [lia |].
    cbn [zero_symbols repeat concat app] in Hrest.
    cbn [seek_prefix].
    rewrite (peek_item_here_mark _ _ _ _ _ _ _ Hrest) by (unfold AOK_PACKET_PREFIX_MARK; lia).
    cbn [negb].
    rewrite (peek_item_ahead _ _ _ _ _ _ _ _ Hrest), Hprefix.
    assert (Hnext : rest (advance src 1) = AOK_PACKET_PREFIX_MARK :: - AOK_ZERO_SPACE :: body).
    { now rewrite rest_advance, Hrest. }
    rewrite bail_guard_rest by assumption. rewrite Hnext.
    destruct (Nat.ltb_spec (length (AOK_PACKET_PREFIX_MARK :: - AOK_ZERO_SPACE :: body)) min_size) as [Hlt | _].
    { cbn [length] in Hlt. lia. }
    destruct fuel as [| fuel]; [lia |].
    apply (seek_prefix_here within Hwithin _ _ _ Hnext).
  - destruct fuel as [| fuel]; [lia |].
    rewrite zero_symbols_S in Hrest. cbn [app] in Hrest.
    cbn [seek_prefix].
    rewrite (peek_item_here_mark _ _ _ _ _ _ _ Hrest) by (unfold AOK_ZERO_MARK; lia).
    cbn [negb].
    rewrite (peek_item_ahead _ _ _ _ _ _ _ _ Hrest), Hnot.
    assert (Hnext : rest (advance src 2)
                    = - AOK_ZERO_SPACE :: zero_symbols k ++ AOK_PACKET_PREFIX_MARK :: - AOK_ZERO_SPACE :: body).
    { now rewrite rest_advance, Hrest. }
    rewrite bail_guard_rest by assumption. rewrite Hnext.
    destruct (Nat.ltb_spec
                (length (- AOK_ZERO_SPACE :: zero_symbols k ++ AOK_PACKET_PREFIX_MARK :: - AOK_ZERO_SPACE :: body))
                min_size) as [Hlt | _].
    { cbn [length] in Hlt. rewrite length_app in Hlt. cbn [length] in Hlt. lia. }
    rewrite (IH fuel _ _ body Hnext) by (assumption || lia).
    rewrite advance_advance. do 2 f_equal. lia.
Qed.

(** A round of the outer loop that starts in front of a prefix does what
    the round starting on the prefix does. *)
Lemma decode_loop_skip fuel src s acc body :
  seek_prefix within (S (size src)) src = PrefixFound s ->
  rx_data s = rx_data src ->
  rest s = AOK_PACKET_PREFIX_MARK :: - AOK_ZERO_SPACE :: body ->
  (min_size < 2 + length body)%nat ->
  (min_size < length (rest src))%nat ->
  decode_loop within (S fuel) src acc = decode_loop within (S fuel) s acc.
Proof.
  intros Hseek Hdata Hrest Hbody Hsrc.
  assert (Hsize : size s = size src) by (unfold size; now rewrite Hdata).
  cbn [decode_loop]. rewrite !loop_guard_rest, Hsize, Hseek.
  rewrite (seek_prefix_here within Hwithin _ _ _ Hrest), Hrest.
  destruct (Nat.ltb_spec min_size (length (rest src))); [| lia].
  destruct (Nat.ltb_spec min_size (length (AOK_PACKET_PREFIX_MARK :: - AOK_ZERO_SPACE :: body))) as [_ | Hge].
  2:{ cbn [length] in Hge. lia. }
  reflexivity.
Qed.

(** One raw duration too many in front of the zero symbols and the frames:
    the packet of the first frame is still what [decode] returns. *)
Lemma decode_run_frames_misaligned s0 k p ps post :
  Forall valid_packet (p :: ps) ->
  (0 < length post <= min_size)%nat ->
  (min_stream_size <= 1 + 2 * k + 132 * length (p :: ps) + length post)%nat ->
  decode_run within (received (s0 :: zero_symbols k ++ concat (map frame (p :: ps)) ++ post)) =
    Returned (Some p)
      (advance (received (s0 :: zero_symbols k ++ concat (map frame (p :: ps)) ++ post))
               (2 * k + 1 + 132 * length (p :: ps))).
Proof.
  intros Hvalid Hpost Hlong.
  set (raw := s0 :: zero_symbols k ++ concat (map frame (p :: ps)) ++ post).
  assert (Hlen : length raw = (1 + 2 * k + 132 * length (p :: ps) + length post)%nat).
  { unfold raw. cbn [length]. rewrite !length_app, length_zero_symbols, length_frames. cbn [length]. lia. }
  unfold decode_run. rewrite size_received, Hlen.
  destruct (Nat.ltb_spec (1 + 2 * k + 132 * length (p :: ps) + length post) min_stream_size); [lia |].
  destruct (frame_starts p) as (body & Hbody).
  assert (Hraw : raw = s0 :: zero_symbols k ++ AOK_PACKET_PREFIX_MARK :: - AOK_ZERO_SPACE
                         :: (body ++ concat (map frame ps) ++ post)).
  { unfold raw. rewrite concat_map_cons, Hbody, <- !app_assoc. reflexivity. }
  assert (Hbodylen : (2 + length (body ++ concat (map frame ps) ++ post)
                      = 132 * length (p :: ps) + length post)%nat).
  { apply (f_equal (@length Z)) in Hbody. rewrite length_frame in Hbody. cbn [length] in Hbody.
    rewrite !length_app, length_frames. cbn [length]. lia. }
  change min_stream_size with 824%nat in *. change min_size with 132%nat in *.
  assert (Hsize : size (received raw) = length raw) by reflexivity.
  assert (Hnext : rest (advance (received raw) (2 * k + 1))
                  = AOK_PACKET_PREFIX_MARK :: - AOK_ZERO_SPACE
                      :: (body ++ concat (map frame ps) ++ post)).
  { rewrite rest_advance, rest_received, Hraw.
    replace (2 * k + 1)%nat with (S (2 * k)) by lia. rewrite skipn_cons.
    apply skipn_zero_symbols. }
  rewrite (decode_loop_skip _ _ (advance (received raw) (2 * k + 1)) _
             (body ++ concat (map frame ps) ++ post)).
  - rewrite (decode_loop_frames within Hwithin (p :: ps) _ _ [] post Hvalid).
    + rewrite advance_advance. reflexivity.
    + rewrite Hnext, concat_map_cons, Hbody, <- !app_assoc. reflexivity.
    + assumption.
    + lia.
  - apply (seek_prefix_misaligned k _ _ s0 (body ++ concat (map frame ps) ++ post)).
    + rewrite rest_received. exact Hraw.
    + rewrite Hsize, Hlen. change min_size with 132%nat. lia.
    + change min_size with 132%nat. cbn [length] in *. lia.
    + rewrite Hsize, Hlen. lia.
  - reflexivity.
  - exact Hnext.
  - change min_size with 132%nat. cbn [length] in *. lia.
  - rewrite rest_received, Hlen. change min_size with 132%nat. cbn [length] in *. lia.
Qed.

Lemma decode_transmission_misaligned d x :
  valid_packet d ->
  decode within (received (x :: transmission d)) = Some d
  /\ decode within (received (tl (transmission d))) = Some d.
Proof.
  intros Hd. pose proof (transmission_frames_valid d Hd) as Hvalid.
  pose proof (transmission_frames_count d) as Hcount.
  assert (Hpost : (0 < length (zero_symbols AOK_PRE_POST_ZEROS) <= min_size)%nat).
  { rewrite length_zero_symbols. change min_size with 132%nat. change AOK_PRE_POST_ZEROS with 16%nat. lia. }
  rewrite transmission_frames. unfold decode. split.
  - rewrite (decode_run_frames_misaligned x); trivial.
    rewrite length_zero_symbols, Hcount. change min_stream_size with 824%nat.
    change AOK_PRE_POST_ZEROS with 16%nat. destruct (needs_release d); lia.
  - change (zero_symbols AOK_PRE_POST_ZEROS) with (zero_symbols 16) at 1.
    rewrite (zero_symbols_S 15). cbn [app tl].
    rewrite (zero_symbols_S 14). cbn [app].
    assert (Hshift : forall l, - AOK_ZERO_SPACE :: AOK_ZERO_MARK :: - AOK_ZERO_SPACE :: zero_symbols 14 ++ l
                               = - AOK_ZERO_SPACE :: zero_symbols 15 ++ l).
    { intros l. rewrite (zero_symbols_S 14). reflexivity. }
    rewrite Hshift.
    rewrite (decode_run_frames_misaligned (- AOK_ZERO_SPACE)); trivial.
    rewrite length_zero_symbols, Hcount. change min_stream_size with 824%nat.
    change AOK_PRE_POST_ZEROS with 16%nat. destruct (needs_release d); lia.
Qed.

End Misaligned.

(** ** The sink after [encode] *)

Lemma for_loop_invariant {S : Type} (P : S -> Prop) (body : nat -> S -> S) :
  (forall i s, P s -> P (body i s)) ->
  forall n s, P s -> P (for_loop n body s).
Proof.
  intros Hbody n s. unfold for_loop. generalize (seq 0 n) as l. intros l. revert s.
  induction l as [| i l IH]; intros s Hs; cbn [fold_left]; auto.
Qed.

Lemma encode_packet_keeps dst d :
  tx_carrier_frequency (encode_packet dst d) = tx_carrier_frequency dst
  /\ tx_reserved (encode_packet dst d) = tx_reserved dst.
Proof.
  unfold encode_packet.
  set (P := fun s : RemoteTransmitData =>
              tx_carrier_frequency s = tx_carrier_frequency dst /\ tx_reserved s = tx_reserved dst).
  change (P (item (for_loop AOK_PACKET_SIZE
                     (fun i dst0 =>
                        if Z.testbit (packet_bits d) (Z.of_nat (AOK_PACKET_SIZE - i - 1))
                        then item dst0 AOK_ONE_MARK AOK_ONE_SPACE
                        else item dst0 AOK_ZERO_MARK AOK_ZERO_SPACE)
                     (item dst AOK_PACKET_PREFIX_MARK AOK_ZERO_SPACE))
                AOK_ONE_MARK AOK_PACKET_SUFFIX_SPACE)).
  assert (Hitem : forall s m sp, P s -> P (item s m sp)) by (intros s m sp Hs; exact Hs).
  apply Hitem. apply for_loop_invariant.
  - intros i s Hs. destruct (Z.testbit _ _); apply Hitem; exact Hs.
  - apply Hitem. split; reflexivity.
Qed.

Lemma encode_sink dst d :
  tx_carrier_frequency (encode dst d) = 0
  /\ tx_reserved (encode dst d) = (if needs_release d then 1648 else 856).
Proof.
  unfold encode.
  set (P := fun s : RemoteTransmitData =>
              tx_carrier_frequency s = 0
              /\ tx_reserved s = (if needs_release d then 1648 else 856)).
  assert (Hitem : forall s m sp, P s -> P (item s m sp)) by (intros s m sp Hs; exact Hs).
  assert (Hpacket : forall s p, P s -> P (encode_packet s p)).
  { intros s p (Hc & Hr). destruct (encode_packet_keeps s p) as (Hc' & Hr').
    split; [now rewrite Hc' | now rewrite Hr']. }
  cbv zeta.
  match goal with |- tx_carrier_frequency ?s = 0 /\ _ => change (P s) end.
  apply for_loop_invariant; [intros; now apply Hitem |].
  assert (Hfirst : P (for_loop AOK_REPEATS (fun _ dst0 => encode_packet dst0 d)
                        (for_loop AOK_PRE_POST_ZEROS (fun _ dst0 => item dst0 AOK_ZERO_MARK AOK_ZERO_SPACE)
                           (reserve (set_carrier_frequency dst 0)
                              (u16 ((Z.of_nat AOK_PRE_POST_ZEROS
                                     + (1 + Z.of_nat AOK_PACKET_SIZE + 1)
                                       * u8 (if needs_release d then 2 else 1) * Z.of_nat AOK_REPEATS
                                     + Z.of_nat AOK_PRE_POST_ZEROS) * 2)))))).
  { apply for_loop_invariant; [intros; now apply Hpacket |].
    apply for_loop_invariant; [intros; now apply Hitem |].
    split; [reflexivity |]. cbn [tx_reserved reserve].
    destruct (needs_release d); reflexivity. }
  destruct (needs_release d) eqn:E; [| exact Hfirst].
  apply for_loop_invariant; [intros; now apply Hpacket | exact Hfirst].
Qed.

(** ** Bounds of the cursor *)

Section Bounds.

Variable within : Z -> Z -> bool.

Lemma peek_item_in_buffer src mark space :
  peek_item within src mark space 0 = true -> (rx_index src + 2 <= size src)%nat.
Proof.
  unfold peek_item, peek_space. intros H. apply andb_true_iff in H as (H & _).
  destruct (is_valid src (0 + 1)) eqn:E; cbn [negb] in H; [| discriminate].
  unfold is_valid in E. apply Nat.ltb_lt in E. lia.
Qed.

Lemma expect_item_in_buffer src mark space ok src' :
  expect_item within src mark space = (ok, src') ->
  (rx_index src <= size src -> rx_index src' <= size src)%nat
  /\ (ok = true -> rx_index src' <= size src)%nat.
Proof.
  intros H. pose proof (expect_item_cursor within _ _ _ _ _ H) as (_ & I & P).
  destruct ok.
  - symmetry in P. apply peek_item_in_buffer in P. split; intros; lia.
  - split; [intros; lia | discriminate].
Qed.

Lemma capture_bits_in_buffer idxs : forall acc src r src',
  capture_bits within idxs acc src = (r, src') ->
  (rx_index src <= size src -> rx_index src' <= size src)%nat.
Proof.
  induction idxs as [| i idxs IH]; intros acc src r src' H Hin; cbn [capture_bits] in H.
  - now injection H as <- <-.
  - destruct (expect_item within src AOK_ONE_MARK AOK_ONE_SPACE) as [one s1] eqn:E1.
    pose proof (expect_item_cursor within _ _ _ _ _ E1) as (D1 & _ & _).
    apply expect_item_in_buffer in E1 as (B1 & _). specialize (B1 Hin).
    assert (S1 : size s1 = size src) by (unfold size; now rewrite D1).
    destruct one.
    + specialize (IH _ _ _ _ H). rewrite S1 in IH. auto.
    + destruct (expect_item within s1 AOK_ZERO_MARK AOK_ZERO_SPACE) as [zero s2] eqn:E2.
      pose proof (expect_item_cursor within _ _ _ _ _ E2) as (D2 & _ & _).
      apply expect_item_in_buffer in E2 as (B2 & _). rewrite S1 in B2. specialize (B2 B1).
      assert (S2 : size s2 = size src) by (unfold size; now rewrite D2, D1).
      destruct zero.
      * specialize (IH _ _ _ _ H). rewrite S2 in IH. auto.
      * now injection H as <- <-.
Qed.

Lemma decode_packet_in_buffer src r src' :
  decode_packet within src = (r, src') ->
  (rx_index src <= size src -> rx_index src' <= size src)%nat
  /\ (r <> None -> rx_index src' <= size src)%nat.
Proof.
  unfold decode_packet.
  destruct (expect_item within src AOK_PACKET_PREFIX_MARK AOK_ZERO_SPACE) as [prefix s1] eqn:E1.
  pose proof (expect_item_cursor within _ _ _ _ _ E1) as (D1 & _ & _).
  apply expect_item_in_buffer in E1 as (B1 & B1').
  assert (S1 : size s1 = size src) by (unfold size; now rewrite D1).
  destruct prefix; cbn [negb].
  2:{ intros [= <- <-]. split; [exact B1 | intros Hr; now elim Hr]. }
  specialize (B1' eq_refl).
  destruct (capture_bits within (seq 0 AOK_PACKET_SIZE) 0 s1) as [[bits |] s2] eqn:E2.
  2:{ intros [= <- <-]. apply capture_bits_in_buffer in E2; [| now rewrite S1].
      rewrite S1 in E2. split; [intros; exact E2 | intros Hr; now elim Hr]. }
  pose proof (capture_bits_cursor within _ _ _ _ _ E2) as (D2 & _ & _).
  apply capture_bits_in_buffer in E2; [| now rewrite S1]. rewrite S1 in E2.
  assert (S2 : size s2 = size src) by (unfold size; now rewrite D2, D1).
  destruct (expect_item within s2 AOK_ONE_MARK AOK_PACKET_SUFFIX_SPACE) as [suffix s3] eqn:E3.
  apply expect_item_in_buffer in E3 as (B3 & B3'). rewrite S2 in B3, B3'.
  destruct suffix; cbn [negb]; intros [= <- <-].
  - split; intros; now apply B3'.
  - split; [intros; now apply B3 | intros Hr; now elim Hr].
Qed.

Lemma decode_packet_accepts src d src' :
  decode_packet within src = (Some d, src') ->
  valid_packet d /\ src' = advance src 132 /\ (rx_index src + 132 <= size src)%nat.
Proof.
  intros H.
  pose proof (decode_packet_cursor within _ _ _ H) as (D & _ & _ & I).
  pose proof (decode_packet_in_buffer _ _ _ H) as (_ & B).
  specialize (I ltac:(discriminate)). specialize (B ltac:(discriminate)).
  change min_size with 132%nat in I.
  assert (Hadv : src' = advance src 132).
  { destruct src' as [raw' i']. destruct src as [raw i]. unfold advance.
    cbn [rx_data rx_index] in *. now subst. }
  split; [| split; [assumption | lia]].
  revert H. unfold decode_packet.
  destruct (expect_item within src AOK_PACKET_PREFIX_MARK AOK_ZERO_SPACE) as [prefix s1] eqn:E1.
  destruct prefix; cbn [negb]; [| discriminate].
  destruct (capture_bits within (seq 0 AOK_PACKET_SIZE) 0 s1) as [[bits |] s2] eqn:E2; [| discriminate].
  destruct (expect_item within s2 AOK_ONE_MARK AOK_PACKET_SUFFIX_SPACE) as [suffix s3] eqn:E3.
  destruct suffix; cbn [negb]; [| discriminate].
  intros [= H _].
  apply (decode_bits_is_encoding (u64 bits) d); [| exact H].
  unfold u64. apply Z.mod_pos_bound. lia.
Qed.

(** Whatever the outer loop returns was read by [decode_packet] from a
    whole frame of the buffer, or was collected before. *)
Lemma decode_loop_sound (P : AOKData -> Prop) raw :
  (forall s0 d, rx_data s0 = raw -> decode_packet within s0 = (Some d, advance s0 132) ->
                (rx_index s0 + 132 <= length raw)%nat -> valid_packet d -> P d) ->
  forall fuel src packets d s,
    rx_data src = raw ->
    Forall P packets ->
    decode_loop within fuel src packets = Returned (Some d) s ->
    P d.
Proof.
  intros HP. induction fuel as [| fuel IH]; intros src packets d s Hraw Hall H; [discriminate |].
  cbn [decode_loop] in H.
  destruct (get_index src <? size src - min_size)%nat.
  2:{ destruct packets as [| front tl]; [discriminate |]. injection H as <- _.
      now inversion Hall. }
  pose proof (seek_prefix_ends within (S (size src)) src ltac:(lia)) as Hseek.
  destruct (seek_prefix within (S (size src)) src) as [s1 | s1 |]; [| discriminate | contradiction].
  destruct Hseek as (D1 & _ & _).
  destruct (decode_packet within s1) as [packet s2] eqn:E.
  pose proof (decode_packet_cursor within _ _ _ E) as (D2 & _).
  refine (IH s2 _ d s _ _ H); [now rewrite D2, D1 |].
  destruct packet as [q |]; [| exact Hall].
  apply Forall_app. split; [exact Hall |]. constructor; [| constructor].
  pose proof (decode_packet_accepts _ _ _ E) as (Hq & Hs2 & Hb). subst s2.
  apply (HP s1); trivial.
  - now rewrite D1.
  - unfold size in Hb. now rewrite D1, Hraw in Hb.
Qed.

End Bounds.

Lemma stop_packet_valid : valid_packet stop_packet.
Proof.
  unfold valid_packet, stop_packet, CHANNEL_1, COMMAND_STOP. cbn [device channel command]. lia.
Qed.

Lemma up_packet_valid : valid_packet up_packet.
Proof.
  unfold valid_packet, up_packet, CHANNEL_1, COMMAND_UP. cbn [device channel command]. lia.
Qed.

Lemma header_byte_wide d :
  in_range d ->
  u8 (Z.shiftr (packet_bits d) 56) = Z.lor AOK_HEADER (Z.shiftr (device d) 24).
Proof.
  intros Hd. pose proof Hd as (Hdev & Hc & Hk).
  rewrite packet_bits_sum_wide by assumption.
  rewrite !Z.shiftr_div_pow2 by lia. unfold u8.
  pose proof (checksum_range d) as Hs.
  pose proof (Z.mod_pos_bound (device d) (2 ^ 24) ltac:(lia)) as Hlo.
  assert (Hhi : 0 <= device d / 2 ^ 24 < 2 ^ 8).
  { split; [apply Z.div_pos; lia | apply Z.div_lt_upper_bound; lia]. }
  pose proof (header_lor_range _ Hhi) as Hlor.
  set (h := Z.lor AOK_HEADER (device d / 2 ^ 24)) in *.
  set (lo := device d mod 2 ^ 24) in *.
  Z.div_mod_to_equations. lia.
Qed.

(** ** One flipped bit *)

Lemma testbit_above b n i : 0 <= b < 2 ^ n -> 0 <= n <= i -> Z.testbit b i = false.
Proof.
  intros Hb Hi. rewrite <- (Z.mod_small b (2 ^ n)) by lia.
  apply Z.mod_pow2_bits_high. lia.
Qed.

Lemma lxor_pow2_range b n k : 0 <= b < 2 ^ n -> 0 <= k < n -> 0 <= Z.lxor b (2 ^ k) < 2 ^ n.
Proof.
  intros Hb Hk.
  assert (Hnn : 0 <= Z.lxor b (2 ^ k)) by (apply Z.lxor_nonneg; split; intros; lia).
  split; [assumption |].
  destruct (Z.eq_dec (Z.lxor b (2 ^ k)) 0) as [-> | Hnz]; [lia |].
  apply Z.log2_lt_pow2; [lia |].
  eapply Z.le_lt_trans; [apply Z.log2_lxor; lia |].
  apply Z.max_lub_lt.
  - destruct (Z.eq_dec b 0) as [-> | Hb0]; [cbn; lia |]. apply Z.log2_lt_pow2; lia.
  - rewrite Z.log2_pow2; lia.
Qed.

Lemma lxor_pow2_high a b n k :
  0 <= b < 2 ^ n -> 0 <= n <= k ->
  Z.lxor (a * 2 ^ n + b) (2 ^ k) = Z.lxor a (2 ^ (k - n)) * 2 ^ n + b.
Proof.
  intros Hb Hk.
  rewrite <- !(lor_disjoint_add _ b n) by lia.
  replace (2 ^ k) with (2 ^ (k - n) * 2 ^ n) by (rewrite <- Z.pow_add_r by lia; f_equal; lia).
  rewrite <- !Z.shiftl_mul_pow2 by lia.
  apply Z.bits_inj'. intros i Hi.
  rewrite Z.lxor_spec, !Z.lor_spec, !Z.shiftl_spec, Z.lxor_spec by lia.
  destruct (Z.lt_ge_cases i n) as [Hlt | Hge].
  - rewrite !(Z.testbit_neg_r _ (i - n)) by lia. now destruct (Z.testbit b i).
  - rewrite (testbit_above b n i) by lia. now rewrite !orb_false_r.
Qed.

Lemma lxor_pow2_low a b n k :
  0 <= b < 2 ^ n -> 0 <= k < n ->
  Z.lxor (a * 2 ^ n + b) (2 ^ k) = a * 2 ^ n + Z.lxor b (2 ^ k).
Proof.
  intros Hb Hk. pose proof (lxor_pow2_range b n k Hb Hk) as Hr.
  rewrite <- !(lor_disjoint_add a _ n) by lia.
  rewrite <- !Z.shiftl_mul_pow2 by lia.
  apply Z.bits_inj'. intros i Hi.
  rewrite Z.lxor_spec, !Z.lor_spec, !Z.shiftl_spec, Z.lxor_spec by lia.
  destruct (Z.lt_ge_cases i n) as [Hlt | Hge].
  - rewrite !(Z.testbit_neg_r _ (i - n)) by lia. reflexivity.
  - assert (Hpow : 0 <= 2 ^ k < 2 ^ n).
    { split; [apply Z.pow_nonneg; lia | apply Z.pow_lt_mono_r; lia]. }
    rewrite (testbit_above b n i Hb), (testbit_above (2 ^ k) n i Hpow) by lia.
    now destruct (Z.testbit a (i - n)).
Qed.

(** Flipping bit [k] of a value flips bit [k - n] of the field it lies in. *)
Lemma lxor_pow2_field hi f lo n w k :
  0 <= lo < 2 ^ n -> 0 <= f < 2 ^ w -> 0 <= n -> n <= k < n + w ->
  Z.lxor ((hi * 2 ^ w + f) * 2 ^ n + lo) (2 ^ k) =
    (hi * 2 ^ w + Z.lxor f (2 ^ (k - n))) * 2 ^ n + lo.
Proof.
  intros Hlo Hf Hn Hk.
  rewrite lxor_pow2_high by lia. rewrite lxor_pow2_low by lia. reflexivity.
Qed.

Lemma lxor_pow2_neq b k : 0 <= k -> Z.lxor b (2 ^ k) <> b.
Proof.
  intros Hk H. apply (f_equal (fun x => Z.lxor b x)) in H.
  rewrite <- Z.lxor_assoc, Z.lxor_nilpotent, Z.lxor_0_l in H.
  pose proof (Z.pow_pos_nonneg 2 k ltac:(lia) Hk). lia.
Qed.

Lemma lxor_pow2_step b k :
  0 <= k -> Z.lxor b (2 ^ k) = b + 2 ^ k \/ Z.lxor b (2 ^ k) = b - 2 ^ k.
Proof.
  intros Hk.
  assert (Hclear : forall c, Z.testbit c k = false -> Z.lxor c (2 ^ k) = c + 2 ^ k).
  { intros c Hc. symmetry. apply Z.add_nocarry_lxor.
    apply Z.bits_inj'. intros i Hi. rewrite Z.land_spec, Z.bits_0, Z.pow2_bits_eqb by lia.
    destruct (Z.eqb_spec k i) as [<- | _]; [now rewrite Hc | apply andb_false_r]. }
  destruct (Z.testbit b k) eqn:E.
  - right. specialize (Hclear (Z.lxor b (2 ^ k))).
    rewrite Z.lxor_assoc, Z.lxor_nilpotent, Z.lxor_0_r in Hclear.
    assert (Hb : b = Z.lxor b (2 ^ k) + 2 ^ k).
    { apply Hclear. rewrite Z.lxor_spec, E, Z.pow2_bits_eqb, Z.eqb_refl by lia. reflexivity. }
    lia.
  - left. now apply Hclear.
Qed.

Lemma byte_at_lxor a b i :
  0 <= i -> byte_at (Z.lxor a b) i = Z.lxor (byte_at a i) (byte_at b i).
Proof.
  intros Hi. unfold byte_at. apply Z.bits_inj'. intros n Hn.
  rewrite Z.lxor_spec, !Z.land_spec, !Z.shiftr_spec, Z.lxor_spec by lia.
  destruct (Z.testbit a (n + 8 * i)), (Z.testbit b (n + 8 * i)), (Z.testbit 255 n); reflexivity.
Qed.

Lemma byte_at_pow2 j i :
  0 <= i -> 0 <= j ->
  byte_at (2 ^ j) i = if (8 * i <=? j) && (j <? 8 * i + 8) then 2 ^ (j - 8 * i) else 0.
Proof.
  intros Hi Hj. rewrite byte_at_spec by lia.
  destruct (Z.leb_spec (8 * i) j) as [Hle | Hgt]; cbn [andb].
  - rewrite <- Z.pow_sub_r by lia.
    destruct (Z.ltb_spec j (8 * i + 8)) as [Hlt | Hge].
    + apply Z.mod_small. split; [apply Z.pow_nonneg; lia | apply Z.pow_lt_mono_r; lia].
    + replace (j - 8 * i) with (8 + (j - 8 * i - 8)) by lia.
      rewrite Z.pow_add_r by lia. rewrite Z.mul_comm. apply Z.mod_mul. lia.
  - rewrite Z.div_small; [reflexivity |].
    split; [apply Z.pow_nonneg; lia | apply Z.pow_lt_mono_r; lia].
Qed.

Lemma byte_at_range x k : 0 <= k -> 0 <= byte_at x k < 2 ^ 8.
Proof. intros Hk. rewrite byte_at_spec by lia. apply Z.mod_pos_bound. lia. Qed.

(** The checksum is the sum of the six bytes, modulo 256. *)
Lemma checksum_bytes d :
  0 <= command d < 2 ^ 8 ->
  checksum d =
    (byte_at (device d) 0 + byte_at (device d) 1 + byte_at (device d) 2
     + byte_at (channel d) 0 + byte_at (channel d) 1 + command d) mod 2 ^ 8.
Proof.
  intros Hc.
  pose proof (byte_at_range (device d) 0 ltac:(lia)).
  pose proof (byte_at_range (device d) 1 ltac:(lia)).
  pose proof (byte_at_range (device d) 2 ltac:(lia)).
  pose proof (byte_at_range (channel d) 0 ltac:(lia)).
  pose proof (byte_at_range (channel d) 1 ltac:(lia)).
  unfold checksum, u16, u8. change 0xFF with (Z.ones 8). rewrite Z.land_ones by lia.
  rewrite Z.add_0_l.
  rewrite (Z.mod_small (_ + _ + _) (2 ^ 16)) by lia.
  rewrite (Z.mod_small (_ + _ + _ + (_ + _)) (2 ^ 16)) by lia.
  rewrite (Z.mod_small (_ + _ + _ + (_ + _) + _) (2 ^ 16)) by lia.
  rewrite Z.mod_mod by lia. f_equal. lia.
Qed.

(** A byte sum with one byte flipped in one bit has another residue. *)
Lemma flipped_sum_differs S B m :
  0 <= m < 8 ->
  (S - B + Z.lxor B (2 ^ m)) mod 2 ^ 8 <> S mod 2 ^ 8.
Proof.
  intros Hm.
  assert (Hpow : 1 <= 2 ^ m <= 128).
  { split; [pose proof (Z.pow_pos_nonneg 2 m ltac:(lia) ltac:(lia)); lia |].
    change 128 with (2 ^ 7). apply Z.pow_le_mono_r; lia. }
  destruct (lxor_pow2_step B m ltac:(lia)) as [-> | ->]; Z.div_mod_to_equations; lia.
Qed.

Lemma lxor_pow2_in_field v hi f lo n w k :
  v = (hi * 2 ^ w + f) * 2 ^ n + lo ->
  0 <= lo < 2 ^ n -> 0 <= f < 2 ^ w -> 0 <= n -> n <= k < n + w ->
  Z.lxor v (2 ^ k) = (hi * 2 ^ w + Z.lxor f (2 ^ (k - n))) * 2 ^ n + lo.
Proof. intros ->. apply lxor_pow2_field. Qed.

Lemma decode_bits_of_fields v h lo ch cmd ck :
  v = h * 2 ^ 56 + lo * 2 ^ 32 + ch * 2 ^ 16 + cmd * 2 ^ 8 + ck ->
  0 <= h < 2 ^ 8 -> 0 <= lo < 2 ^ 24 -> 0 <= ch < 2 ^ 16 -> 0 <= cmd < 2 ^ 8 -> 0 <= ck < 2 ^ 8 ->
  decode_bits v =
    if negb (h =? AOK_HEADER) then None
    else if negb (checksum (mkAOKData lo ch cmd) =? ck) then None
         else Some (mkAOKData lo ch cmd).
Proof. intros ->. apply decode_bits_fields. Qed.

Lemma rejected_by_checksum v h lo ch cmd ck :
  v = h * 2 ^ 56 + lo * 2 ^ 32 + ch * 2 ^ 16 + cmd * 2 ^ 8 + ck ->
  0 <= h < 2 ^ 8 -> 0 <= lo < 2 ^ 24 -> 0 <= ch < 2 ^ 16 -> 0 <= cmd < 2 ^ 8 -> 0 <= ck < 2 ^ 8 ->
  checksum (mkAOKData lo ch cmd) <> ck ->
  decode_bits v = None.
Proof.
  intros Hv Hh Hlo Hch Hcmd Hck Hne.
  rewrite (decode_bits_of_fields v h lo ch cmd ck) by assumption.
  destruct (negb (h =? AOK_HEADER)); [reflexivity |].
  destruct (Z.eqb_spec (checksum (mkAOKData lo ch cmd)) ck); [contradiction | reflexivity].
Qed.

Ltac split_comparisons :=
  repeat match goal with
         | |- context [Z.leb ?a ?b] => destruct (Z.leb_spec a b); try lia
         | |- context [Z.ltb ?a ?b] => destruct (Z.ltb_spec a b); try lia
         end.

Ltac flipped_byte :=
  match goal with
  | |- ?X mod _ <> ?Y mod _ =>
      match X with
      | context [Z.lxor ?B (2 ^ ?m)] =>
          replace X with (Y - B + Z.lxor B (2 ^ m)) by lia;
          apply flipped_sum_differs; lia
      end
  end.

Theorem single_bit_flip_rejected d k :
  valid_packet d -> 0 <= k < 64 ->
  decode_bits (Z.lxor (packet_bits d) (2 ^ k)) = None.
Proof.
  intros (Hd & Hc & Hm) Hk.
  pose proof (checksum_range d) as Hs.
  pose proof (checksum_bytes d Hm) as Hsum.
  rewrite packet_bits_sum by assumption.
  destruct d as [dev ch cmd]. cbn [device channel command] in *.
  set (ck := checksum (mkAOKData dev ch cmd)) in *.
  set (v := AOK_HEADER * 2 ^ 56 + dev * 2 ^ 32 + ch * 2 ^ 16 + cmd * 2 ^ 8 + ck).
  unfold AOK_HEADER in v.
  destruct (Z.lt_ge_cases k 8) as [H8 | H8];
    [| destruct (Z.lt_ge_cases k 16) as [H16 | H16];
       [| destruct (Z.lt_ge_cases k 32) as [H32 | H32];
          [| destruct (Z.lt_ge_cases k 56) as [H56 | H56]]]].
  - (* the checksum byte *)
    pose proof (lxor_pow2_range ck 8 (k - 0) ltac:(lia) ltac:(lia)) as Hr.
    rewrite (lxor_pow2_in_field v (0xa3 * 2 ^ 48 + dev * 2 ^ 24 + ch * 2 ^ 8 + cmd) ck 0 0 8 k)
      by (subst v; lia).
    apply (rejected_by_checksum _ 0xa3 dev ch cmd (Z.lxor ck (2 ^ (k - 0)))); try lia.
    fold ck. intros H. symmetry in H. revert H. apply lxor_pow2_neq. lia.
  - (* the command byte *)
    pose proof (lxor_pow2_range cmd 8 (k - 8) ltac:(lia) ltac:(lia)) as Hr.
    rewrite (lxor_pow2_in_field v (0xa3 * 2 ^ 40 + dev * 2 ^ 16 + ch) cmd ck 8 8 k)
      by (subst v; lia).
    apply (rejected_by_checksum _ 0xa3 dev ch (Z.lxor cmd (2 ^ (k - 8))) ck); try lia.
    rewrite checksum_bytes by (cbn [command]; lia). cbn [device channel command].
    rewrite Hsum. flipped_byte.
  - (* the channel *)
    pose proof (lxor_pow2_range ch 16 (k - 16) ltac:(lia) ltac:(lia)) as Hr.
    rewrite (lxor_pow2_in_field v (0xa3 * 2 ^ 24 + dev) ch (cmd * 2 ^ 8 + ck) 16 16 k)
      by (subst v; lia).
    apply (rejected_by_checksum _ 0xa3 dev (Z.lxor ch (2 ^ (k - 16))) cmd ck); try lia.
    rewrite checksum_bytes by (cbn [command]; lia). cbn [device channel command].
    rewrite Hsum, !byte_at_lxor, !byte_at_pow2 by lia.
    split_comparisons; cbn [andb]; rewrite ?Z.lxor_0_r; flipped_byte.
  - (* the device *)
    pose proof (lxor_pow2_range dev 24 (k - 32) ltac:(lia) ltac:(lia)) as Hr.
    rewrite (lxor_pow2_in_field v 0xa3 dev (ch * 2 ^ 16 + cmd * 2 ^ 8 + ck) 32 24 k)
      by (subst v; lia).
    apply (rejected_by_checksum _ 0xa3 (Z.lxor dev (2 ^ (k - 32))) ch cmd ck); try lia.
    rewrite checksum_bytes by (cbn [command]; lia). cbn [device channel command].
    rewrite Hsum, !byte_at_lxor, !byte_at_pow2 by lia.
    split_comparisons; cbn [andb]; rewrite ?Z.lxor_0_r; flipped_byte.
  - (* the header *)
    pose proof (lxor_pow2_range 0xa3 8 (k - 56) ltac:(lia) ltac:(lia)) as Hr.
    rewrite (lxor_pow2_in_field v 0 0xa3 (dev * 2 ^ 32 + ch * 2 ^ 16 + cmd * 2 ^ 8 + ck) 56 8 k)
      by (subst v; lia).
    rewrite (decode_bits_of_fields _ (Z.lxor 0xa3 (2 ^ (k - 56))) dev ch cmd ck) by lia.
    destruct (Z.eqb_spec (Z.lxor 0xa3 (2 ^ (k - 56))) AOK_HEADER) as [H | _]; [| reflexivity].
    exfalso. revert H. apply lxor_pow2_neq. lia.
Qed.

(** ** What was received *)

Lemma frame_symbols_raw d :
  frame d = flat_map (fun p => [fst p; - snd p]) (frame_symbols d).
Proof.
  rewrite frame_eq. unfold frame_symbols, bit_symbols.
  cbn [flat_map fst snd app]. do 2 f_equal.
  rewrite flat_map_app. cbn [flat_map fst snd app]. f_equal.
  rewrite flat_map_concat_map, map_map. f_equal.
  apply map_ext. intros i. now destruct (Z.testbit _ _).
Qed.

Section Reception.

Variable within : Z -> Z -> bool.

Lemma symbols_ahead_app e1 e2 raw :
  symbols_ahead within (e1 ++ e2) raw =
    symbols_ahead within e1 raw && symbols_ahead within e2 (skipn (2 * length e1) raw).
Proof.
  revert raw. induction e1 as [| [mark space] e1 IH]; intros raw; [reflexivity |].
  cbn [app symbols_ahead length].
  replace (2 * S (length e1))%nat with (S (S (2 * length e1))) by lia.
  destruct raw as [| m [| s raw']]; try reflexivity.
  cbn [skipn]. now rewrite IH, andb_assoc.
Qed.

Lemma expect_item_taken src mark space src' :
  expect_item within src mark space = (true, src') ->
  src' = advance src 2 /\ symbols_ahead within [(mark, space)] (rest src) = true.
Proof.
  unfold expect_item. destruct (peek_item within src mark space 0) eqn:E; cbn [negb];
    [| discriminate].
  intros [= <-]. split; [reflexivity |].
  pose proof (peek_item_in_buffer within _ _ _ E) as Hlen.
  pose proof (length_rest src) as Hrest.
  destruct (rest src) as [| m [| s l]] eqn:Er; cbn [length] in Hrest; try lia.
  rewrite (peek_item_here within _ _ _ _ _ _ Er) in E.
  cbn [symbols_ahead]. now rewrite E.
Qed.

Lemma capture_bits_reads idxs : forall acc src bits src',
  NoDup idxs ->
  capture_bits within idxs acc src = (Some bits, src') ->
  (forall p, 0 <= p -> ~ In p (map (fun i => Z.of_nat (AOK_PACKET_SIZE - i - 1)) idxs) ->
             Z.testbit bits p = Z.testbit acc p)
  /\ (NoDup (map (fun i => Z.of_nat (AOK_PACKET_SIZE - i - 1)) idxs) ->
      symbols_ahead within
        (map (fun i => if Z.testbit bits (Z.of_nat (AOK_PACKET_SIZE - i - 1))
                       then (AOK_ONE_MARK, AOK_ONE_SPACE)
                       else (AOK_ZERO_MARK, AOK_ZERO_SPACE)) idxs)
        (rest src) = true).
Proof.
  induction idxs as [| i idxs IH]; intros acc src bits src' Hnd H; cbn [capture_bits] in H.
  - injection H as <- <-. split; [reflexivity | reflexivity].
  - inversion Hnd as [| ? ? Hni Hnd']; subst.
    set (pos := Z.of_nat (AOK_PACKET_SIZE - i - 1)) in *.
    destruct (expect_item within src AOK_ONE_MARK AOK_ONE_SPACE) as [one s1] eqn:E1.
    destruct one.
    + apply expect_item_taken in E1 as (-> & M1).
      destruct (IH _ _ _ _ Hnd' H) as (Hbits & Hsym).
      split.
      * intros p Hp Hnotin. cbn [map In] in Hnotin.
        rewrite Hbits by (trivial; tauto). apply Z.setbit_neq; [unfold pos; lia | intros Heq; apply Hnotin; left; exact Heq].
      * intros Hpos. cbn [map] in Hpos. inversion Hpos as [| ? ? Hpi Hpos']; subst.
        cbn [map]. fold pos.
        rewrite (Hbits pos) by (unfold pos; trivial; lia).
        rewrite Z.setbit_eq by (unfold pos; lia).
        change ((AOK_ONE_MARK, AOK_ONE_SPACE) :: ?l) with ([(AOK_ONE_MARK, AOK_ONE_SPACE)] ++ l).
        rewrite symbols_ahead_app, M1. cbn [andb length Nat.mul Nat.add].
        rewrite <- rest_advance. now apply Hsym.
    + destruct (expect_item within s1 AOK_ZERO_MARK AOK_ZERO_SPACE) as [zero s2] eqn:E2.
      destruct zero; [| discriminate].
      pose proof (expect_item_cursor within _ _ _ _ _ E1) as (D1 & I1 & _).
      assert (Hs1 : s1 = src).
      { destruct s1 as [r1 i1], src as [r0 i0]. cbn [rx_data rx_index] in *. now subst. }
      subst s1.
      apply expect_item_taken in E2 as (-> & M2).
      destruct (IH _ _ _ _ Hnd' H) as (Hbits & Hsym).
      split.
      * intros p Hp Hnotin. cbn [map In] in Hnotin.
        rewrite Hbits by (trivial; tauto). apply Z.clearbit_neq. intros Heq. apply Hnotin. left. exact Heq.
      * intros Hpos. cbn [map] in Hpos. inversion Hpos as [| ? ? Hpi Hpos']; subst.
        cbn [map]. fold pos.
        rewrite (Hbits pos) by (unfold pos; trivial; lia).
        rewrite Z.clearbit_eq by (unfold pos; lia).
        change ((AOK_ZERO_MARK, AOK_ZERO_SPACE) :: ?l) with ([(AOK_ZERO_MARK, AOK_ZERO_SPACE)] ++ l).
        rewrite symbols_ahead_app, M2. cbn [andb length Nat.mul Nat.add].
        rewrite <- rest_advance. now apply Hsym.
Qed.

Lemma cursor_eq (a b : RemoteReceiveData) :
  rx_data a = rx_data b -> rx_index a = rx_index b -> a = b.
Proof. destruct a as [ra ia], b as [rb ib]. cbn [rx_data rx_index]. now intros -> ->. Qed.

Lemma NoDup_map_on {A B} (f : A -> B) (l : list A) :
  NoDup l -> (forall x y, In x l -> In y l -> f x = f y -> x = y) -> NoDup (map f l).
Proof.
  induction 1 as [| a l Hni Hnd IH]; intros Hinj; cbn [map]; constructor.
  - intros Hin. apply in_map_iff in Hin as (y & Hy & Hin).
    apply Hni. rewrite (Hinj a y); cbn [In]; auto.
  - apply IH. intros x y Hx Hy. apply Hinj; cbn [In]; auto.
Qed.

Lemma bit_positions_NoDup :
  NoDup (map (fun i => Z.of_nat (AOK_PACKET_SIZE - i - 1)) (seq 0 AOK_PACKET_SIZE)).
Proof.
  apply NoDup_map_on; [apply seq_NoDup |].
  intros x y Hx Hy. apply in_seq in Hx, Hy. unfold AOK_PACKET_SIZE in *. lia.
Qed.

(** [decode_packet] returns a packet only when the durations ahead match,
    symbol by symbol, the frame of that packet. *)
Lemma decode_packet_reads src d src' :
  decode_packet within src = (Some d, src') ->
  symbols_ahead within (frame_symbols d) (rest src) = true.
Proof.
  unfold decode_packet.
  destruct (expect_item within src AOK_PACKET_PREFIX_MARK AOK_ZERO_SPACE) as [prefix s1] eqn:E1.
  destruct prefix; cbn [negb]; [| discriminate].
  destruct (capture_bits within (seq 0 AOK_PACKET_SIZE) 0 s1) as [[bits |] s2] eqn:E2; [| discriminate].
  destruct (expect_item within s2 AOK_ONE_MARK AOK_PACKET_SUFFIX_SPACE) as [suffix s3] eqn:E3.
  destruct suffix; cbn [negb]; [| discriminate].
  intros [= Hdec _].
  apply expect_item_taken in E1 as (-> & M1).
  pose proof (capture_bits_cursor within _ _ _ _ _ E2) as (D2 & _ & I2).
  specialize (I2 ltac:(discriminate)).
  assert (Hs2 : s2 = advance (advance src 2) (2 * length (seq 0 AOK_PACKET_SIZE)))
    by (apply cursor_eq; assumption).
  destruct (capture_bits_reads _ _ _ _ _ (seq_NoDup _ _) E2) as (_ & M2).
  specialize (M2 bit_positions_NoDup).
  apply expect_item_taken in E3 as (_ & M3).
  destruct (decode_bits_is_encoding (u64 bits) d) as (_ & Hbits); trivial.
  { unfold u64. apply Z.mod_pos_bound. lia. }
  unfold frame_symbols.
  change (?p :: ?l ++ ?t) with ([p] ++ l ++ t).
  rewrite !symbols_ahead_app, M1. cbn [andb].
  change (2 * length [(AOK_PACKET_PREFIX_MARK, AOK_ZERO_SPACE)])%nat with 2%nat.
  rewrite length_map, <- !rest_advance, <- Hs2, M3, andb_true_r.
  rewrite <- M2. f_equal. apply map_ext_in. intros i Hi. apply in_seq in Hi.
  rewrite Hbits. unfold u64.
  rewrite Z.mod_pow2_bits_low by (unfold AOK_PACKET_SIZE in *; lia). reflexivity.
Qed.

End Reception.

Section Cursor.

Variable within : Z -> Z -> bool.

Lemma seek_prefix_bound fuel : forall src,
  (rx_index src <= size src - min_size)%nat ->
  match seek_prefix within fuel src with
  | PrefixFound s => (rx_index s <= size src - min_size)%nat
  | BailedOut s => (rx_index s <= size src - min_size + 2)%nat
  | SeekFuel => True
  end.
Proof.
  induction fuel as [| fuel IH]; intros src Hin; [exact I |].
  cbn [seek_prefix].
  destruct (peek_item within src AOK_PACKET_PREFIX_MARK AOK_ZERO_SPACE 0); cbn [negb];
    [exact Hin |].
  set (src1 := if peek_item within src AOK_PACKET_PREFIX_MARK AOK_ZERO_SPACE 1
               then advance src 1 else advance src 2).
  assert (Hs : size src1 = size src) by (unfold src1; destruct (peek_item _ _ _ _ 1); reflexivity).
  assert (Hi : (rx_index src1 <= rx_index src + 2)%nat).
  { unfold src1; destruct (peek_item _ _ _ _ 1); cbn [advance rx_index]; lia. }
  rewrite Hs. unfold get_index.
  destruct (Nat.ltb_spec (size src - min_size) (rx_index src1)) as [Hbail | Hgo]; [lia |].
  specialize (IH src1). rewrite Hs in IH. specialize (IH Hgo).
  destruct (seek_prefix within fuel src1); assumption.
Qed.

(** The outer loop keeps the buffer, only moves the cursor forward, and
    keeps it inside the buffer. *)
Lemma decode_loop_cursor fuel : forall src packets result s,
  decode_loop within fuel src packets = Returned result s ->
  rx_data s = rx_data src
  /\ (rx_index src <= rx_index s)%nat
  /\ (rx_index src <= size src -> rx_index s <= size src)%nat.
Proof.
  induction fuel as [| fuel IH]; intros src packets result s H; [discriminate |].
  cbn [decode_loop] in H. unfold get_index in H.
  destruct (Nat.ltb_spec (rx_index src) (size src - min_size)) as [Hgo | Hstop].
  2:{ destruct packets; injection H as _ <-; repeat split; auto. }
  pose proof (seek_prefix_ends within (S (size src)) src ltac:(lia)) as Hseek.
  pose proof (seek_prefix_bound (S (size src)) src ltac:(lia)) as Hbound.
  destruct (seek_prefix within (S (size src)) src) as [s1 | s1 |]; [| | contradiction].
  - destruct Hseek as (D1 & I1 & _).
    destruct (decode_packet within s1) as [packet s2] eqn:E.
    pose proof (decode_packet_cursor within _ _ _ E) as (D2 & I2 & _).
    pose proof (decode_packet_in_buffer within _ _ _ E) as (B2 & _).
    assert (S1 : size s1 = size src) by (unfold size; now rewrite D1).
    assert (S2 : size s2 = size src) by (unfold size; now rewrite D2, D1).
    apply IH in H as (D & I3 & B). rewrite S2 in B. rewrite S1 in B2.
    split; [now rewrite D, D2, D1 |]. split; [lia |].
    intros _. apply B, B2. lia.
  - injection H as _ <-. destruct Hseek as (D1 & I1).
    change min_size with 132%nat in *. repeat split; trivial; lia.
Qed.

End Cursor.

(** * Further properties *)

(** X1.  Codec round trip: the frame value of a packet with a 24-bit device
    passes the header and checksum tests of [decode_packet] and gives the
    packet back. *)
Theorem codec_round_trip (d : AOKData) :
  valid_packet d -> decode_bits (packet_bits d) = Some d.
Proof. apply decode_bits_packet_bits. Qed.

Lemma codec_round_trip_witness : decode_bits (packet_bits up_packet) = Some up_packet.
Proof. apply (codec_round_trip up_packet). exact up_packet_valid. Defined.

(** X2.  A 64-bit value that [decode_packet] accepts is the frame value of
    the packet it returns, and that packet has a 24-bit device: two
    different values never decode to the same packet. *)
Theorem accepted_value_is_encoding (v : Z) (d : AOKData) :
  0 <= v < 2 ^ 64 ->
  decode_bits v = Some d ->
  valid_packet d /\ packet_bits d = v.
Proof. apply decode_bits_is_encoding. Qed.

Lemma accepted_value_is_encoding_witness :
  valid_packet stop_packet /\ packet_bits stop_packet = 0xA30102030100232A.
Proof.
  apply (accepted_value_is_encoding 0xA30102030100232A stop_packet).
  - lia.
  - vm_compute. reflexivity.
Defined.

(** X3.  One flipped bit, anywhere in the frame value of a valid packet, is
    caught: in the header byte by the header test, elsewhere by the
    checksum. *)
Theorem flipped_bit_rejected (d : AOKData) (k : Z) :
  valid_packet d -> 0 <= k < 64 ->
  decode_bits (Z.lxor (packet_bits d) (2 ^ k)) = None.
Proof. apply single_bit_flip_rejected. Qed.

Lemma flipped_bit_rejected_witness :
  decode_bits (Z.lxor (packet_bits stop_packet) (2 ^ 37)) = None.
Proof. apply (flipped_bit_rejected stop_packet 37); [exact stop_packet_valid | lia]. Defined.

(** X4.  A device wider than 24 bits: its top byte is or-ed into the header
    byte of the frame, and the frame decodes (to the packet with the device
    cut to 24 bits) exactly when that leaves the header 0xA3. *)
Theorem wide_device_frame (d : AOKData) :
  in_range d ->
  u8 (Z.shiftr (packet_bits d) 56) = Z.lor AOK_HEADER (Z.shiftr (device d) 24)
  /\ decode_bits (packet_bits d) =
       if Z.lor AOK_HEADER (Z.shiftr (device d) 24) =? AOK_HEADER
       then Some (mkAOKData (Z.land (device d) 0xffffff) (channel d) (command d))
       else None.
Proof.
  intros Hd. split; [now apply header_byte_wide | now apply decode_bits_wide_device].
Qed.

Lemma wide_device_frame_witness :
  u8 (Z.shiftr (packet_bits wide_device_packet) 56)
    = Z.lor AOK_HEADER (Z.shiftr (device wide_device_packet) 24)
  /\ decode_bits (packet_bits wide_device_packet) =
       if Z.lor AOK_HEADER (Z.shiftr (device wide_device_packet) 24) =? AOK_HEADER
       then Some (mkAOKData (Z.land (device wide_device_packet) 0xffffff)
                    (channel wide_device_packet) (command wide_device_packet))
       else None.
Proof.
  apply (wide_device_frame wide_device_packet).
  unfold in_range, wide_device_packet, CHANNEL_1, COMMAND_STOP. cbn [device channel command]. lia.
Defined.

(** X5.  [encode] selects no carrier and reserves exactly what it then
    appends: the capacity hint equals the number of raw durations added to
    the sink, 856 or, with the release burst, 1648. *)
Theorem encode_sink_state (dst : RemoteTransmitData) (d : AOKData) :
  tx_carrier_frequency (encode dst d) = 0
  /\ tx_reserved (encode dst d) = (if needs_release d then 1648 else 856)
  /\ Z.of_nat (length (tx_data (encode dst d)))
     = Z.of_nat (length (tx_data dst)) + tx_reserved (encode dst d).
Proof.
  destruct (encode_sink dst d) as (Hc & Hr). repeat split; trivial.
  rewrite Hr, tx_data_encode, !length_app, !length_zero_symbols, length_burst.
  change AOK_PRE_POST_ZEROS with 16%nat.
  destruct (needs_release d); [rewrite length_burst |]; cbn [length]; lia.
Qed.

Section FurtherDecoding.

Variable within : Z -> Z -> bool.

(** X6.  [decode] terminates on every buffer and from every cursor: both
    loops end, the buffer is left as it is, the cursor only moves forward
    and never leaves the buffer. *)
Theorem decode_terminates (src : RemoteReceiveData) :
  exists result src',
    decode_run within src = Returned result src'
    /\ rx_data src' = rx_data src
    /\ (rx_index src <= rx_index src')%nat
    /\ (rx_index src <= size src -> rx_index src' <= size src)%nat.
Proof.
  destruct (decode_run_returns within src) as (result & src' & H).
  exists result, src'. split; [exact H |].
  unfold decode_run in H. destruct (size src <? min_stream_size)%nat.
  - injection H as _ <-. repeat split; auto.
  - now apply decode_loop_cursor in H.
Qed.

(** X7.  What [decode] returns was received: the packet has a 24-bit
    device, and somewhere in the buffer 132 raw durations match, symbol by
    symbol, the frame of that packet. *)
Theorem decode_returns_received_frame (src : RemoteReceiveData) (d : AOKData) :
  decode within src = Some d ->
  valid_packet d
  /\ exists i, (i + 132 <= size src)%nat
               /\ symbols_ahead within (frame_symbols d) (skipn i (rx_data src)) = true.
Proof.
  unfold decode, decode_run.
  destruct (size src <? min_stream_size)%nat; [discriminate |].
  destruct (decode_loop within (S (size src)) src []) as [[q |] s |] eqn:E; try discriminate.
  intros [= ->].
  apply (decode_loop_sound within
           (fun d => valid_packet d
                     /\ exists i, (i + 132 <= size src)%nat
                                  /\ symbols_ahead within (frame_symbols d) (skipn i (rx_data src)) = true)
           (rx_data src)) in E; trivial.
  intros s0 q Hraw Hdec Hin Hq. split; [exact Hq |].
  exists (rx_index s0). split; [exact Hin |].
  apply decode_packet_reads in Hdec. unfold rest in Hdec. now rewrite Hraw in Hdec.
Qed.

(** X11.  [decode_packet] leaves the buffer alone and moves the cursor
    forward by at most 132 raw durations, never past the end of the buffer;
    it consumes the prefix whenever one is ahead. *)
Theorem decode_packet_consumes (src : RemoteReceiveData) (r : option AOKData)
        (src' : RemoteReceiveData) :
  decode_packet within src = (r, src') ->
  rx_data src' = rx_data src
  /\ (rx_index src <= rx_index src' <= rx_index src + 132)%nat
  /\ (rx_index src <= size src -> rx_index src' <= size src)%nat
  /\ (peek_item within src AOK_PACKET_PREFIX_MARK AOK_ZERO_SPACE 0 = true ->
      rx_index src + 2 <= rx_index src')%nat.
Proof.
  intros H.
  destruct (decode_packet_cursor within _ _ _ H) as (D & I & P & _).
  destruct (decode_packet_in_buffer within _ _ _ H) as (B & _).
  change min_size with 132%nat in I. repeat split; trivial; lia.
Qed.

(** X13.  A packet comes out of [decode_packet] only if the 132 raw
    durations ahead lie in the buffer and match the symbols of its frame;
    the cursor is then right behind them. *)
Theorem decode_packet_sound (src : RemoteReceiveData) (d : AOKData) (src' : RemoteReceiveData) :
  decode_packet within src = (Some d, src') ->
  valid_packet d
  /\ src' = advance src 132
  /\ (rx_index src + 132 <= size src)%nat
  /\ symbols_ahead within (frame_symbols d) (rest src) = true.
Proof.
  intros H. destruct (decode_packet_accepts within _ _ _ H) as (Hd & Hs & Hb).
  split; [exact Hd |]. split; [exact Hs |]. split; [exact Hb |].
  exact (decode_packet_reads within _ _ _ H).
Qed.

Hypothesis Hwithin : distinguishes within = true.

(** X8.  First frame wins: after any number of zero symbols, frames back
    to back (of one packet or of several) and a tail of at most 132 raw
    durations, [decode] returns the packet of the first frame. *)
Theorem first_frame_wins (k : nat) (p : AOKData) (ps : list AOKData) (post : list Z) :
  Forall valid_packet (p :: ps) ->
  (0 < length post <= 132)%nat ->
  (824 <= 2 * k + 132 * length (p :: ps) + length post)%nat ->
  decode within (received (zero_symbols k ++ concat (map frame (p :: ps)) ++ post)) = Some p.
Proof.
  intros Hvalid Hpost Hlong. unfold decode.
  now rewrite (decode_run_frames within Hwithin k p ps post Hvalid Hpost Hlong).
Qed.

(** X9.  Misalignment recovery: with one stray duration in front of a
    transmission, or with its first duration missing, [decode] still returns
    the packet. *)
Theorem misalignment_recovery (d : AOKData) (x : Z) :
  valid_packet d ->
  decode within (received (x :: transmission d)) = Some d
  /\ decode within (received (tl (transmission d))) = Some d.
Proof. now apply decode_transmission_misaligned. Qed.

(** X10.  Idle pulses after a transmission: up to 50 further zero symbols
    are harmless, from 51 on the scan bails out in them and the packet is
    lost. *)
Theorem idle_tail_threshold (d : AOKData) (k : nat) :
  valid_packet d ->
  decode within (received (transmission d ++ zero_symbols k)) =
    if (k <=? 50)%nat then Some d else None.
Proof. now apply decode_transmission_idle_tail. Qed.

(** X12.  The action: the three values of the automation, each within the
    width of its field, come back from [decode] as the packet they make. *)
Theorem action_round_trip (device_ channel_ command_ : Z) :
  0 <= device_ < 2 ^ 24 -> 0 <= channel_ < 2 ^ 16 -> 0 <= command_ < 2 ^ 8 ->
  decode within (received (tx_data (AOKAction_encode empty_tx device_ channel_ command_)))
    = Some (mkAOKData device_ channel_ command_).
Proof.
  intros Hd Hc Hk. unfold AOKAction_encode, u32, u16, u8. cbv zeta.
  rewrite !Z.mod_small by lia.
  fold (transmission (mkAOKData device_ channel_ command_)). unfold decode.
  rewrite (decode_run_transmission within Hwithin); [reflexivity |].
  unfold valid_packet. cbn [device channel command]. lia.
Qed.

(** X14.  A frame is read wherever it lies: with the cursor on the frame of
    a valid packet, [decode_packet] returns the packet and leaves the cursor
    behind the frame, whatever follows. *)
Theorem decode_packet_complete (d : AOKData) (src : RemoteReceiveData) (l : list Z) :
  valid_packet d ->
  rest src = frame d ++ l ->
  decode_packet within src = (Some d, advance src 132).
Proof. now apply decode_packet_frame. Qed.

End FurtherDecoding.

Lemma decode_returns_received_frame_witness :
  valid_packet stop_packet
  /\ exists i, (i + 132 <= size (received (transmission stop_packet)))%nat
               /\ symbols_ahead (within_percent 25) (frame_symbols stop_packet)
                    (skipn i (rx_data (received (transmission stop_packet)))) = true.
Proof.
  apply (decode_returns_received_frame (within_percent 25)
           (received (transmission stop_packet)) stop_packet).
  vm_compute. reflexivity.
Defined.

Lemma decode_packet_consumes_witness :
  rx_data (advance (received (frame stop_packet)) 132) = rx_data (received (frame stop_packet))
  /\ (rx_index (received (frame stop_packet))
      <= rx_index (advance (received (frame stop_packet)) 132)
      <= rx_index (received (frame stop_packet)) + 132)%nat
  /\ (rx_index (received (frame stop_packet)) <= size (received (frame stop_packet)) ->
      rx_index (advance (received (frame stop_packet)) 132)
      <= size (received (frame stop_packet)))%nat
  /\ (peek_item (within_percent 25) (received (frame stop_packet))
        AOK_PACKET_PREFIX_MARK AOK_ZERO_SPACE 0 = true ->
      rx_index (received (frame stop_packet)) + 2
      <= rx_index (advance (received (frame stop_packet)) 132))%nat.
Proof.
  apply (decode_packet_consumes (within_percent 25) (received (frame stop_packet))
           (Some stop_packet) (advance (received (frame stop_packet)) 132)).
  vm_compute. reflexivity.
Defined.

Lemma decode_packet_sound_witness :
  valid_packet stop_packet
  /\ advance (received (frame stop_packet)) 132 = advance (received (frame stop_packet)) 132
  /\ (rx_index (received (frame stop_packet)) + 132 <= size (received (frame stop_packet)))%nat
  /\ symbols_ahead (within_percent 25) (frame_symbols stop_packet)
       (rest (received (frame stop_packet))) = true.
Proof.
  apply (decode_packet_sound (within_percent 25) (received (frame stop_packet)) stop_packet
           (advance (received (frame stop_packet)) 132)).
  vm_compute. reflexivity.
Defined.

Lemma first_frame_wins_witness :
  decode (within_percent 25)
    (received (zero_symbols 3 ++ concat (map frame [up_packet; stop_packet; stop_packet;
                                                     stop_packet; stop_packet; stop_packet])
                 ++ zero_symbols 16))
  = Some up_packet.
Proof.
  apply (first_frame_wins (within_percent 25)).
  - reflexivity.
  - repeat (constructor; [first [exact up_packet_valid | exact stop_packet_valid] |]).
    constructor.
  - vm_compute. lia.
  - vm_compute. lia.
Defined.

Lemma misalignment_recovery_witness :
  decode (within_percent 25) (received (7 :: transmission stop_packet)) = Some stop_packet
  /\ decode (within_percent 25) (received (tl (transmission stop_packet))) = Some stop_packet.
Proof.
  apply (misalignment_recovery (within_percent 25)).
  - reflexivity.
  - exact stop_packet_valid.
Defined.

Lemma idle_tail_threshold_witness :
  decode (within_percent 25) (received (transmission stop_packet ++ zero_symbols 51)) =
    if (51 <=? 50)%nat then Some stop_packet else None.
Proof.
  apply (idle_tail_threshold (within_percent 25)).
  - reflexivity.
  - exact stop_packet_valid.
Defined.

Lemma action_round_trip_witness :
  decode (within_percent 25)
    (received (tx_data (AOKAction_encode empty_tx 0x010203 CHANNEL_ALL COMMAND_PROGRAM)))
  = Some (mkAOKData 0x010203 CHANNEL_ALL COMMAND_PROGRAM).
Proof.
  apply (action_round_trip (within_percent 25)).
  - reflexivity.
  - lia.
  - unfold CHANNEL_ALL. lia.
  - unfold COMMAND_PROGRAM. lia.
Defined.

Lemma decode_packet_complete_witness :
  decode_packet (within_percent 25) (received (frame up_packet ++ [7; -7])) =
    (Some up_packet, advance (received (frame up_packet ++ [7; -7])) 132).
Proof.
  apply (decode_packet_complete (within_percent 25)) with (l := [7; -7]).
  - reflexivity.
  - exact up_packet_valid.
  - vm_compute. reflexivity.
Defined.
